(** * A hash-linked ledger with Merkle commitments and proof of work

    Shallow embedding of [src/main.py] (classes [MerkleTree], [Block],
    [Blockchain] and the function [from_dict]) and the properties of its
    integrity engine.

    Python strings are modelled as [string], read as the UTF-8 bytes that
    [str.encode()] produces, so that concatenation and encoding commute.
    Python integers are [Z].  [hashlib.sha256] is implemented below after
    FIPS 180-4, so that digests of concrete blocks can be evaluated. *)

From Stdlib Require Import ZArith String Ascii List Lia Bool.
From Stdlib Require Import DecimalString.
From stdpp Require Import base option list strings gmap.
From Equations Require Import Equations.
Import ListNotations.

Local Open Scope string_scope.
Local Open Scope Z_scope.

(** ** SHA-256 (hashlib.sha256(...).hexdigest()) *)

Module Sha256.

Definition mask32 : Z := 4294967295.

Definition w32 (x : Z) : Z := Z.land x mask32.

Definition add32 (x y : Z) : Z := w32 (x + y).

Definition rotr (n x : Z) : Z :=
  Z.lor (Z.shiftr x n) (w32 (Z.shiftl x (32 - n))).

Definition Ch (x y z : Z) : Z :=
  Z.lxor (Z.land x y) (Z.land (Z.lxor x mask32) z).

Definition Maj (x y z : Z) : Z :=
  Z.lxor (Z.lxor (Z.land x y) (Z.land x z)) (Z.land y z).

Definition Sigma0 (x : Z) : Z := Z.lxor (Z.lxor (rotr 2 x) (rotr 13 x)) (rotr 22 x).
Definition Sigma1 (x : Z) : Z := Z.lxor (Z.lxor (rotr 6 x) (rotr 11 x)) (rotr 25 x).
Definition sigma0 (x : Z) : Z := Z.lxor (Z.lxor (rotr 7 x) (rotr 18 x)) (Z.shiftr x 3).
Definition sigma1 (x : Z) : Z := Z.lxor (Z.lxor (rotr 17 x) (rotr 19 x)) (Z.shiftr x 10).

(** The round constants and the initial hash value are the first 32 bits of
    the fractional parts of the cube roots of the first 64 primes, and of
    the square roots of the first 8 (FIPS 180-4, sections 4.2.2 and 5.3.3). *)
Definition is_prime (n : nat) : bool :=
  forallb (fun d => negb (Nat.eqb (Nat.modulo n d) 0)) (seq 2 (n - 2)).

Definition primes : list Z :=
  Eval vm_compute in map Z.of_nat (filter is_prime (seq 2 310)).

(** The integer cube root, one bit at a time from bit [bits - 1] down. *)
Fixpoint cube_root (bits : nat) (n r : Z) : Z :=
  match bits with
  | O => r
  | S b =>
      let c := r + 2 ^ Z.of_nat b in
      cube_root b n (if c * c * c <=? n then c else r)
  end.

Definition K : list Z :=
  Eval vm_compute in map (fun p => w32 (cube_root 40 (p * 2 ^ 96) 0)) primes.

Definition H0 : list Z :=
  Eval vm_compute in map (fun p => w32 (Z.sqrt (p * 2 ^ 64))) (firstn 8 primes).

(** Padding: a 1 bit, zeros up to 56 mod 64 bytes, the bit length on 8 bytes. *)
Definition be_bytes (n : nat) (x : Z) : list Z :=
  map (fun i => Z.land (Z.shiftr x (8 * Z.of_nat i)) 255) (rev (seq 0 n)).

Definition pad (msg : list Z) : list Z :=
  let len := Z.of_nat (length msg) in
  msg ++ [128] ++ repeat 0 (Z.to_nat ((55 - len) mod 64)) ++ be_bytes 8 (8 * len).

Fixpoint words_of_bytes (bs : list Z) : list Z :=
  match bs with
  | b0 :: b1 :: b2 :: b3 :: rest =>
      (Z.shiftl b0 24 + Z.shiftl b1 16 + Z.shiftl b2 8 + b3) :: words_of_bytes rest
  | _ => []
  end.

(** The message schedule, newest word first. *)
Fixpoint schedule (n : nat) (ws : list Z) : list Z :=
  match n with
  | O => ws
  | S n' =>
      let w := add32 (add32 (sigma1 (nth 1 ws 0)) (nth 6 ws 0))
                     (add32 (sigma0 (nth 14 ws 0)) (nth 15 ws 0)) in
      schedule n' (w :: ws)
  end.

Record regs := Regs { ra : Z; rb : Z; rc : Z; rd : Z; re : Z; rf : Z; rg : Z; rh : Z }.

Definition round (s : regs) (kw : Z * Z) : regs :=
  let t1 := add32 (add32 (add32 (rh s) (Sigma1 (re s))) (Ch (re s) (rf s) (rg s)))
                  (add32 (fst kw) (snd kw)) in
  let t2 := add32 (Sigma0 (ra s)) (Maj (ra s) (rb s) (rc s)) in
  Regs (add32 t1 t2) (ra s) (rb s) (rc s) (add32 (rd s) t1) (re s) (rf s) (rg s).

Definition compress (s : regs) (block : list Z) : regs :=
  let w := rev (schedule 48 (rev block)) in
  let r := fold_left round (combine K w) s in
  Regs (add32 (ra s) (ra r)) (add32 (rb s) (rb r)) (add32 (rc s) (rc r)) (add32 (rd s) (rd r))
       (add32 (re s) (re r)) (add32 (rf s) (rf r)) (add32 (rg s) (rg r)) (add32 (rh s) (rh r)).

Fixpoint blocks (n : nat) (ws : list Z) : list (list Z) :=
  match n with
  | O => []
  | S n' => firstn 16 ws :: blocks n' (skipn 16 ws)
  end.

Definition init_regs : regs :=
  match H0 with
  | [a; b; c; d; e; f; g; h] => Regs a b c d e f g h
  | _ => Regs 0 0 0 0 0 0 0 0
  end.

Definition digest_words (msg : list Z) : list Z :=
  let ws := words_of_bytes (pad msg) in
  let r := fold_left compress (blocks (length ws / 16) ws) init_regs in
  [ra r; rb r; rc r; rd r; re r; rf r; rg r; rh r].

Definition hex_digit (d : Z) : ascii :=
  ascii_of_N (Z.to_N (if d <? 10 then 48 + d else 87 + d)).

Definition hex_word (w : Z) : list ascii :=
  map (fun i => hex_digit (Z.land (Z.shiftr w (4 * Z.of_nat i)) 15)) (rev (seq 0 8)).

Definition bytes_of_string (s : string) : list Z :=
  map (fun c => Z.of_N (N_of_ascii c)) (list_ascii_of_string s).

(** [hashlib.sha256(s.encode()).hexdigest()] *)
Definition hexdigest (s : string) : string :=
  string_of_list_ascii (concat (map hex_word (digest_words (bytes_of_string s)))).

End Sha256.

Definition sha256_hex (s : string) : string := Sha256.hexdigest s.


(** ** Outcomes of fallible code

    [Ret] is a normal return, [Raise] a Python exception, and [OutOfFuel]
    marks a loop that was still running when its fuel ran out. *)

Inductive exn : Type :=
| KeyError (key : string)
| ValueError
| TypeError
| IndexError.

Inductive outcome (A : Type) : Type :=
| Ret (a : A)
| Raise (e : exn)
| OutOfFuel.
Arguments Ret {A} a.
Arguments Raise {A} e.
Arguments OutOfFuel {A}.

#[global] Instance outcome_ret : MRet outcome := fun A a => Ret a.
#[global] Instance outcome_bind : MBind outcome := fun A B f m =>
  match m with
  | Ret a => f a
  | Raise e => Raise e
  | OutOfFuel => OutOfFuel
  end.

(** ** Canonical string forms: [str] and [repr] *)

(** [str(n)] for an integer.  The conversion is total: the limit on the
    number of digits that recent interpreters put on it is not modelled. *)
Definition str_int (n : Z) : string := NilZero.string_of_int (Z.to_int n).

Definition digit_char (d : Z) : ascii := ascii_of_N (Z.to_N (48 + d)).

(** ["%0kd" % n]: the [k] low decimal digits of [n], zero padded. *)
Fixpoint digits (k : nat) (n : Z) : string :=
  match k with
  | O => ""
  | S k' => digits k' (n / 10) +:+ String (digit_char (n mod 10)) ""
  end.

Fixpoint str_contains (c : ascii) (s : string) : bool :=
  match s with
  | EmptyString => false
  | String a s' => Ascii.eqb a c || str_contains c s'
  end.

Definition squote : ascii := "'"%char.
Definition dquote : ascii := ascii_of_N 34.
Definition backslash : ascii := "\"%char.

Definition repr_char (quote c : ascii) : string :=
  let n := Z.of_N (N_of_ascii c) in
  if Ascii.eqb c quote || Ascii.eqb c backslash then String backslash (String c "")
  else if n =? 9 then String backslash "t"
  else if n =? 10 then String backslash "n"
  else if n =? 13 then String backslash "r"
  else if (n <? 32) || (n =? 127) then
    String backslash (String "x"%char
      (String (Sha256.hex_digit (n / 16)) (String (Sha256.hex_digit (n mod 16)) "")))
  else String c "".

Fixpoint repr_body (quote : ascii) (s : string) : string :=
  match s with
  | EmptyString => ""
  | String c s' => repr_char quote c +:+ repr_body quote s'
  end.

(** [repr(s)] for a string: single quotes unless the string has a single
    quote and no double quote; bytes of non-ASCII characters are kept, also
    those of the non-printable ones, which [repr] writes as escapes. *)
Definition repr_str (s : string) : string :=
  let quote := if str_contains squote s && negb (str_contains dquote s)
               then dquote else squote in
  String quote (repr_body quote s +:+ String quote "").

(** [str(l)] for a list whose elements have the canonical forms [items]. *)
Definition str_list (items : list string) : string :=
  "[" +:+ String.concat ", " items +:+ "]".

(** ** Timestamps: naive [datetime] values *)

Record datetime : Type := Datetime {
  year : Z; month : Z; day : Z;
  hour : Z; minute : Z; second : Z; microsecond : Z
}.

Definition is_leap (y : Z) : bool :=
  (y mod 4 =? 0) && (negb (y mod 100 =? 0) || (y mod 400 =? 0)).

Definition days_in_month (y m : Z) : Z :=
  if m =? 2 then (if is_leap y then 29 else 28)
  else if (m =? 4) || (m =? 6) || (m =? 9) || (m =? 11) then 30
  else 31.

Definition between (lo x hi : Z) : bool := (lo <=? x) && (x <=? hi).

(** The range checks of the [datetime] constructor. *)
Definition valid_datetime (t : datetime) : bool :=
  between 1 (year t) 9999 && between 1 (month t) 12 &&
  between 1 (day t) (days_in_month (year t) (month t)) &&
  between 0 (hour t) 23 && between 0 (minute t) 59 && between 0 (second t) 59 &&
  between 0 (microsecond t) 999999.

(** [str(t)], that is [t.isoformat(sep=' ')]. *)
Definition str_datetime (t : datetime) : string :=
  digits 4 (year t) +:+ "-" +:+ digits 2 (month t) +:+ "-" +:+ digits 2 (day t) +:+ " " +:+
  digits 2 (hour t) +:+ ":" +:+ digits 2 (minute t) +:+ ":" +:+ digits 2 (second t) +:+
  (if microsecond t =? 0 then "" else "." +:+ digits 6 (microsecond t)).

(** A small parser for [datetime.fromisoformat]: fixed-width decimal fields
    and literal separators, failing with [ValueError]. *)
Definition digit_val (c : ascii) : option Z :=
  let n := Z.of_N (N_of_ascii c) in
  if between 48 n 57 then Some (n - 48) else None.

Fixpoint take_digits (k : nat) (acc : Z) (s : string) : outcome (Z * string) :=
  match k with
  | O => Ret (acc, s)
  | S k' =>
      match s with
      | EmptyString => Raise ValueError
      | String c s' =>
          match digit_val c with
          | Some d => take_digits k' (10 * acc + d) s'
          | None => Raise ValueError
          end
      end
  end.

Definition expect (c : ascii) (s : string) : outcome string :=
  match s with
  | String a s' => if Ascii.eqb a c then Ret s' else Raise ValueError
  | EmptyString => Raise ValueError
  end.

Definition checked (t : datetime) : outcome datetime :=
  if valid_datetime t then Ret t else Raise ValueError.

(** The accepted shapes are [YYYY-MM-DD], then optionally any one separator
    character and [HH], [HH:MM], [HH:MM:SS], [HH:MM:SS.fff] or
    [HH:MM:SS.ffffff]; UTC offsets (aware datetimes) are not modelled. *)
Definition parse_fraction (s : string) : outcome Z :=
  match s with
  | EmptyString => Ret 0
  | _ =>
      s ← expect "."%char s;
      if (String.length s =? 3)%nat then
        '(ms, s) ← take_digits 3 0 s;
        match s with EmptyString => Ret (1000 * ms) | _ => Raise ValueError end
      else
        '(us, s) ← take_digits 6 0 s;
        match s with EmptyString => Ret us | _ => Raise ValueError end
  end.

Definition parse_time (s : string) : outcome (Z * Z * Z * Z) :=
  '(h, s) ← take_digits 2 0 s;
  match s with
  | EmptyString => Ret (h, 0, 0, 0)
  | _ =>
      s ← expect ":"%char s;
      '(mi, s) ← take_digits 2 0 s;
      match s with
      | EmptyString => Ret (h, mi, 0, 0)
      | _ =>
          s ← expect ":"%char s;
          '(sec, s) ← take_digits 2 0 s;
          us ← parse_fraction s;
          Ret (h, mi, sec, us)
      end
  end.

Definition fromisoformat (s : string) : outcome datetime :=
  '(y, s) ← take_digits 4 0 s;
  s ← expect "-"%char s;
  '(m, s) ← take_digits 2 0 s;
  s ← expect "-"%char s;
  '(d, s) ← take_digits 2 0 s;
  match s with
  | EmptyString => checked (Datetime y m d 0 0 0 0)
  | String _ s =>
      '(h, mi, sec, us) ← parse_time s;
      checked (Datetime y m d h mi sec us)
  end.

(** ** Transactions *)

(** The dictionary [{'sender': s, 'receiver': r, 'amount': a}] built by
    [add_transaction]; amounts are integers. *)
Record Transaction : Type := {
  sender : string;
  receiver : string;
  amount : Z
}.

(** [str(tx)]: the [repr] of the dictionary, keys in insertion order. *)
Definition str_tx (tx : Transaction) : string :=
  "{'sender': " +:+ repr_str (sender tx) +:+ ", 'receiver': " +:+ repr_str (receiver tx) +:+
  ", 'amount': " +:+ str_int (amount tx) +:+ "}".

(** ** class MerkleTree *)

Definition hash_pair (left_ right_ : string) : string := sha256_hex (left_ +:+ right_).

(** The loop of [create_merkle_root] over [range(0, len - 1, 2)], followed by
    the self-pairing of the last element of an odd-length level. *)
Fixpoint next_level (transactions : list string) : list string :=
  match transactions with
  | left_ :: right_ :: rest => hash_pair left_ right_ :: next_level rest
  | [last_] => [hash_pair last_ last_]
  | [] => []
  end.

Equations? create_merkle_root (transactions : list string) : string
  by wf (length transactions) lt :=
  create_merkle_root [] := "";
  create_merkle_root [t] := sha256_hex t;
  create_merkle_root (t0 :: t1 :: rest) :=
    create_merkle_root (next_level (t0 :: t1 :: rest)).
Proof.
  assert (Hlen : forall l : list string,
    (length (next_level l) <= length l)%nat /\
    forall a, (length (next_level (a :: l)) <= S (length l))%nat).
  { induction l as [|b l [IH1 IH2]]; simpl.
    - split; [lia | intros; simpl; lia].
    - split; [apply IH2 | intros a; simpl; lia]. }
  simpl. pose proof (proj1 (Hlen rest)). lia.
Qed.

(** The commitment as the specification words it: pair up level after level
    until one digest remains, and return that digest. *)
Equations? spec_reduce (level : list string) : string
  by wf (length level) lt :=
  spec_reduce [] := "";
  spec_reduce [d] := d;
  spec_reduce (d0 :: d1 :: rest) := spec_reduce (next_level (d0 :: d1 :: rest)).
Proof.
  assert (Hlen : forall l : list string,
    (length (next_level l) <= length l)%nat /\
    forall a, (length (next_level (a :: l)) <= S (length l))%nat).
  { induction l as [|b l [IH1 IH2]]; simpl.
    - split; [lia | intros; simpl; lia].
    - split; [apply IH2 | intros a; simpl; lia]. }
  simpl. pose proof (proj1 (Hlen rest)). lia.
Qed.

Definition spec_commit (records : list string) : string :=
  match records with
  | [] => ""
  | [r] => sha256_hex r
  | _ => spec_reduce records
  end.

Record MerkleTree : Type := { merkle_root : string }.

(** [MerkleTree(transactions, merkle_root)] *)
Definition MerkleTree_init (transactions : list string) (root : string) : MerkleTree :=
  if (root =? "")%string
  then {| merkle_root := create_merkle_root transactions |}
  else {| merkle_root := root |}.

(** ** class Block *)

Record Block : Type := {
  timestamp : datetime;
  transactions : list Transaction;
  previous_hash : string;
  merkle_tree : MerkleTree;
  nonce : Z;
  hash : string
}.

Definition set_timestamp (t : datetime) (b : Block) : Block :=
  {| timestamp := t; transactions := transactions b; previous_hash := previous_hash b;
     merkle_tree := merkle_tree b; nonce := nonce b; hash := hash b |}.

Definition set_previous_hash (p : string) (b : Block) : Block :=
  {| timestamp := timestamp b; transactions := transactions b; previous_hash := p;
     merkle_tree := merkle_tree b; nonce := nonce b; hash := hash b |}.

Definition set_merkle_tree (m : MerkleTree) (b : Block) : Block :=
  {| timestamp := timestamp b; transactions := transactions b; previous_hash := previous_hash b;
     merkle_tree := m; nonce := nonce b; hash := hash b |}.

Definition set_nonce (n : Z) (b : Block) : Block :=
  {| timestamp := timestamp b; transactions := transactions b; previous_hash := previous_hash b;
     merkle_tree := merkle_tree b; nonce := n; hash := hash b |}.

Definition set_hash (h : string) (b : Block) : Block :=
  {| timestamp := timestamp b; transactions := transactions b; previous_hash := previous_hash b;
     merkle_tree := merkle_tree b; nonce := nonce b; hash := h |}.

Definition block_contents (b : Block) : string :=
  str_datetime (timestamp b) +:+ str_list (map str_tx (transactions b)) +:+
  previous_hash b +:+ str_int (nonce b) +:+ merkle_root (merkle_tree b).

Definition generate_hash (b : Block) : string := sha256_hex (block_contents b).

(** [Block(transactions, previous_hash)], with [now] the reading of
    [datetime.now()]. *)
Definition Block_init (now : datetime) (txs : list Transaction) (prev : string) : Block :=
  let self :=
    {| timestamp := now; transactions := txs; previous_hash := prev;
       merkle_tree := MerkleTree_init (map str_tx txs) "";
       nonce := 0; hash := "" |} in
  set_hash (generate_hash self) self.

Definition verify_transactions (b : Block) : bool :=
  let new_merkle_tree := MerkleTree_init (map str_tx (transactions b)) "" in
  (merkle_root new_merkle_tree =? merkle_root (merkle_tree b))%string.

(** Values stored in the dictionary that [to_dict] builds. *)
Inductive pyval : Type :=
| PStr (s : string)
| PInt (n : Z)
| PTxs (l : list Transaction).

Definition to_dict (b : Block) : gmap string pyval :=
  <["timestamp" := PStr (str_datetime (timestamp b))]>
  (<["transactions" := PTxs (transactions b)]>
  (<["previous_hash" := PStr (previous_hash b)]>
  (<["nonce" := PInt (nonce b)]>
  (<["hash" := PStr (hash b)]>
  (<["merkle_root" := PStr (merkle_root (merkle_tree b))]> ∅))))).

(** [data[key]] *)
Definition getitem (data : gmap string pyval) (key : string) : outcome pyval :=
  match data !! key with
  | Some v => Ret v
  | None => Raise (KeyError key)
  end.

(** The embedding is typed: a stored value of another dynamic type than the
    one [to_dict] writes cannot be carried into a [Block], and is reported
    as [TypeError]. *)
Definition as_str (v : pyval) : outcome string :=
  match v with PStr s => Ret s | _ => Raise TypeError end.
Definition as_int (v : pyval) : outcome Z :=
  match v with PInt n => Ret n | _ => Raise TypeError end.
Definition as_txs (v : pyval) : outcome (list Transaction) :=
  match v with PTxs l => Ret l | _ => Raise TypeError end.

Definition from_dict (now : datetime) (data : gmap string pyval) : outcome Block :=
  v_txs ← getitem data "transactions";
  v_prev ← getitem data "previous_hash";
  txs ← as_txs v_txs;
  prev ← as_str v_prev;
  let block := Block_init now txs prev in
  v_ts ← getitem data "timestamp";
  ts ← as_str v_ts;
  t ← fromisoformat ts;
  let block := set_timestamp t block in
  v_nonce ← getitem data "nonce";
  n ← as_int v_nonce;
  let block := set_nonce n block in
  v_hash ← getitem data "hash";
  h ← as_str v_hash;
  let block := set_hash h block in
  v_root ← getitem data "merkle_root";
  root ← as_str v_root;
  Ret (set_merkle_tree (MerkleTree_init [] root) block).

(** The list comprehensions of [save_to_file] and [load_from_file]. *)
Definition to_dicts (blocks : list Block) : list (gmap string pyval) :=
  map to_dict blocks.

Fixpoint from_dicts (now : datetime) (chain_data : list (gmap string pyval))
  : outcome (list Block) :=
  match chain_data with
  | [] => Ret []
  | block_data :: rest =>
      block ← from_dict now block_data;
      blocks ← from_dicts now rest;
      Ret (block :: blocks)
  end.

Definition required_fields : list string :=
  ["timestamp"; "transactions"; "previous_hash"; "nonce"; "hash"; "merkle_root"].

(** ** class Blockchain *)

Record Blockchain : Type := {
  chain : list Block;
  current_transactions : list Transaction
}.

Definition create_genesis_block (now : datetime) (self : Blockchain) : Blockchain :=
  let genesis_block := Block_init now [] "0" in
  {| chain := chain self ++ [genesis_block];
     current_transactions := current_transactions self |}.

(** [Blockchain()] *)
Definition Blockchain_init (now : datetime) : Blockchain :=
  create_genesis_block now {| chain := []; current_transactions := [] |}.

(** [s[:n]] *)
Fixpoint str_take (n : nat) (s : string) : string :=
  match n, s with
  | S n', String c s' => String c (str_take n' s')
  | _, _ => ""
  end.

Definition difficulty_ok (h : string) : bool := (str_take 4 h =? "0000")%string.

(** The [while] loop of [proof_of_work], run for at most [fuel] iterations;
    the result is the returned value and the block as the loop left it. *)
Fixpoint proof_of_work (fuel : nat) (block : Block) : outcome (string * Block) :=
  if negb (difficulty_ok (hash block)) then
    match fuel with
    | O => OutOfFuel
    | S fuel' =>
        let block := set_nonce (nonce block + 1) block in
        let block := set_hash (generate_hash block) block in
        proof_of_work fuel' block
    end
  else Ret (hash block, block).

Definition add_block (now : datetime) (fuel : nat) (self : Blockchain) : outcome Blockchain :=
  match last (chain self) with
  | None => Raise IndexError
  | Some previous_block =>
      let new_block := Block_init now (current_transactions self) (hash previous_block) in
      '(h, new_block) ← proof_of_work fuel new_block;
      let new_block := set_hash h new_block in
      Ret {| chain := chain self ++ [new_block]; current_transactions := [] |}
  end.

Definition add_transaction (s r : string) (a : Z) (self : Blockchain) : Blockchain :=
  let new_transaction := {| sender := s; receiver := r; amount := a |} in
  {| chain := chain self;
     current_transactions := current_transactions self ++ [new_transaction] |}.

Definition balance_step (person : string) (balance : Z) (tx : Transaction) : Z :=
  let balance := if (sender tx =? person)%string then balance - amount tx else balance in
  if (receiver tx =? person)%string then balance + amount tx else balance.

Definition get_balance (person : string) (self : Blockchain) : Z :=
  fold_left (fun balance block => fold_left (balance_step person) (transactions block) balance)
            (chain self) 0.

(** A Python number that is either [float('-inf')] or an integer. *)
Inductive pynum : Type :=
| NegInf
| Int (n : Z).

(** [max(m, n)] for such a number [m] and an integer [n]. *)
Definition py_max (m : pynum) (n : Z) : pynum :=
  match m with
  | NegInf => Int n
  | Int k => Int (Z.max k n)
  end.

Definition min_max_step (person : string) (st : Z * pynum * Z) (tx : Transaction)
  : Z * pynum * Z :=
  let '(min_balance, max_balance, balance) := st in
  let balance := balance_step person balance tx in
  (Z.min min_balance balance, py_max max_balance balance, balance).

Definition get_min_max_balance (person : string) (self : Blockchain) : Z * pynum :=
  let '(min_balance, max_balance, _) :=
    fold_left (fun st block => fold_left (min_max_step person) (transactions block) st)
              (chain self) (0, NegInf, 0) in
  (min_balance, max_balance).

(** The loop of [verify_chain] over the indices [range(1, len(chain))]. *)
Fixpoint verify_chain_loop (blocks : list Block) (indices : list nat) : outcome bool :=
  match indices with
  | [] => Ret true
  | i :: rest =>
      match blocks !! i, blocks !! (i - 1)%nat with
      | Some current_block, Some previous_block =>
          if negb (hash current_block =? generate_hash current_block)%string then Ret false
          else if negb (previous_hash current_block =? hash previous_block)%string then Ret false
          else verify_chain_loop blocks rest
      | _, _ => Raise IndexError
      end
  end.

Definition verify_chain (self : Blockchain) : outcome bool :=
  verify_chain_loop (chain self) (seq 1 (length (chain self) - 1)).

Fixpoint verify_all_transactions_loop (blocks : list Block) : bool :=
  match blocks with
  | [] => true
  | block :: rest =>
      if negb (verify_transactions block) then false
      else verify_all_transactions_loop rest
  end.

Definition verify_all_transactions (self : Blockchain) : bool :=
  verify_all_transactions_loop (chain self).

(** A Python dictionary from names to integers, as the list of its items in
    insertion order: assigning to a present key keeps its place, assigning
    to a new key appends. *)
Fixpoint dict_get (d : list (string * Z)) (key : string) (default : Z) : Z :=
  match d with
  | [] => default
  | (k, v) :: rest => if (k =? key)%string then v else dict_get rest key default
  end.

Fixpoint dict_set (d : list (string * Z)) (key : string) (value : Z) : list (string * Z) :=
  match d with
  | [] => [(key, value)]
  | (k, v) :: rest =>
      if (k =? key)%string then (k, value) :: rest else (k, v) :: dict_set rest key value
  end.

Definition positive_step (balance : list (string * Z)) (tx : Transaction)
  : list (string * Z) :=
  let balance := dict_set balance (sender tx) (dict_get balance (sender tx) 0 - amount tx) in
  dict_set balance (receiver tx) (dict_get balance (receiver tx) 0 + amount tx).

Definition get_positive_balance_users (self : Blockchain) : list string :=
  let balance :=
    fold_left (fun balance block => fold_left positive_step (transactions block) balance)
              (chain self) [] in
  map fst (List.filter (fun item => 0 <? snd item) balance).

(** ** Operations of a ledger and the ledgers they reach *)

Inductive op : Type :=
| AddTransaction (s r : string) (a : Z)
| AddBlock (now : datetime) (fuel : nat).

Definition run_op (o : op) (self : Blockchain) : outcome Blockchain :=
  match o with
  | AddTransaction s r a => Ret (add_transaction s r a self)
  | AddBlock now fuel => add_block now fuel self
  end.

Fixpoint run_ops (ops : list op) (self : Blockchain) : outcome Blockchain :=
  match ops with
  | [] => Ret self
  | o :: rest => self ← run_op o self; run_ops rest self
  end.

(** A freshly built ledger: [Blockchain()] followed by calls of
    [add_transaction] and [add_block] that all returned. *)
Definition fresh (self : Blockchain) : Prop :=
  exists now ops, run_ops ops (Blockchain_init now) = Ret self.

(** ** Vocabulary of the statements *)

(** The stored hash of a block agrees with a fresh recomputation. *)
Definition consistent (b : Block) : Prop := hash b = generate_hash b.

(** Every block after the first names the stored hash of its predecessor. *)
Definition linked (blocks : list Block) : Prop :=
  forall (i : nat) cur prev,
    blocks !! S i = Some cur -> blocks !! i = Some prev ->
    previous_hash cur = hash prev.

(** What holds of every ledger built by the operations. *)
Record ledger_inv (self : Blockchain) : Prop := {
  inv_nonempty : chain self <> [];
  inv_consistent : Forall consistent (chain self);
  inv_linked : linked (chain self);
  inv_merkle : Forall (fun b => verify_transactions b = true) (chain self)
}.

(** The two checks that the loop makes at index [i]. *)
Definition passes (blocks : list Block) (i : nat) : Prop :=
  exists cur prev,
    blocks !! i = Some cur /\ blocks !! (i - 1)%nat = Some prev /\
    hash cur = generate_hash cur /\ previous_hash cur = hash prev.

(** Overwriting one stored field of the block at index [i]. *)
Definition tamper_hash (i : nat) (h : string) (self : Blockchain) : Blockchain :=
  {| chain := alter (set_hash h) i (chain self);
     current_transactions := current_transactions self |}.

Definition tamper_previous_hash (i : nat) (p : string) (self : Blockchain) : Blockchain :=
  {| chain := alter (set_previous_hash p) i (chain self);
     current_transactions := current_transactions self |}.

(** All transactions of a ledger, in chain order. *)
Definition all_transactions (self : Blockchain) : list Transaction :=
  concat (map transactions (chain self)).

(** The cumulative balance of [person] after each transaction in turn. *)
Fixpoint running_balances (person : string) (balance : Z) (txs : list Transaction) : list Z :=
  match txs with
  | [] => []
  | tx :: rest =>
      let balance := balance_step person balance tx in
      balance :: running_balances person balance rest
  end.

(** The minimum and maximum balance as the specification words them: over
    the balances after each transaction, both seeded with 0. *)
Definition spec_min_max_balance (person : string) (self : Blockchain) : Z * Z :=
  let balances := running_balances person 0 (all_transactions self) in
  (fold_left Z.min balances 0, fold_left Z.max balances 0).

Definition uninvolved (person : string) (tx : Transaction) : Prop :=
  sender tx <> person /\ receiver tx <> person.

(** The sum of the balances of a list of persons. *)
Definition total_balance (persons : list string) (self : Blockchain) : Z :=
  fold_right Z.add 0 (map (fun p => get_balance p self) persons).

(** Both parties of a transaction are among [persons]. *)
Definition parties_in (persons : list string) (tx : Transaction) : Prop :=
  sender tx ∈ persons /\ receiver tx ∈ persons.

(** One transaction moves [amount] from the sender to the receiver. *)
Definition delta (tx : Transaction) (p : string) : Z :=
  (if (sender tx =? p)%string then - amount tx else 0) +
  (if (receiver tx =? p)%string then amount tx else 0).

(** The names of the senders and receivers of the chain, each once, in the
    order in which they first appear. *)
Definition note_name (seen : list string) (name : string) : list string :=
  if bool_decide (name ∈ seen) then seen else (seen ++ [name])%list.

Definition participants (self : Blockchain) : list string :=
  fold_left note_name
    (flat_map (fun tx => [sender tx; receiver tx]) (all_transactions self)) [].

(** The hash that the sealer computes after [k] increments of the nonce. *)
Definition candidate (b : Block) (k : Z) : string :=
  generate_hash (set_nonce (nonce b + k) b).

Definition set_transactions (txs : list Transaction) (b : Block) : Block :=
  {| timestamp := timestamp b; transactions := txs; previous_hash := previous_hash b;
     merkle_tree := merkle_tree b; nonce := nonce b; hash := hash b |}.

Definition tamper_merkle_root (i : nat) (root : string) (self : Blockchain) : Blockchain :=
  {| chain := alter (set_merkle_tree {| merkle_root := root |}) i (chain self);
     current_transactions := current_transactions self |}.

(** The number of [add_block] calls among some operations. *)
Definition count_add_block (ops : list op) : nat :=
  length (List.filter (fun o => match o with AddBlock _ _ => true | _ => false end) ops).

(** A block that came out of the sealer. *)
Definition sealed (b : Block) : Prop :=
  difficulty_ok (hash b) = true /\ hash b = generate_hash b /\ 0 <= nonce b /\
  verify_transactions b = true.

(** A computation that returns, or raises [ValueError]. *)
Definition value_error_only {A : Type} (m : outcome A) : Prop :=
  match m with
  | Ret _ => True
  | Raise e => e = ValueError
  | OutOfFuel => False
  end.

(** What a stored record must hold for [from_dict] to return [b]. *)
Definition stores (data : gmap string pyval) (b : Block) : Prop :=
  (exists ts, data !! "timestamp" = Some (PStr ts) /\ fromisoformat ts = Ret (timestamp b)) /\
  data !! "transactions" = Some (PTxs (transactions b)) /\
  data !! "previous_hash" = Some (PStr (previous_hash b)) /\
  data !! "nonce" = Some (PInt (nonce b)) /\
  data !! "hash" = Some (PStr (hash b)) /\
  data !! "merkle_root" = Some (PStr (merkle_root (merkle_tree b))).

(** The errors of [from_dict]: a required key that is absent, or a present
    value that is malformed. *)
Definition format_error (data : gmap string pyval) (e : exn) : Prop :=
  e = TypeError \/ e = ValueError \/
  exists k, e = KeyError k /\ k ∈ required_fields /\ data !! k = None.

(** ** A sample session, after the script at the end of the source *)

Module Sample.

Definition t0 : datetime := Datetime 2024 5 1 9 3 7 1234.
Definition t1 : datetime := Datetime 2024 5 1 9 3 8 9747.
Definition t2 : datetime := Datetime 2024 5 1 9 3 9 8830.
Definition t3 : datetime := Datetime 2024 5 1 9 3 10 90125.

Definition session : list op :=
  [ AddTransaction "Alice" "Bob" 50; AddTransaction "Bob" "Kate" 20; AddBlock t1 5;
    AddTransaction "Alice" "Jane" 250; AddBlock t2 5 ].

Definition genesis : Block :=
  {| timestamp := t0; transactions := []; previous_hash := "0";
     merkle_tree := {| merkle_root := "" |}; nonce := 0;
     hash := "1708fbce379177ce1fbcc286b4f2580440b7b541e477d608e5e7099959cc1802" |}.

Definition block1 : Block :=
  {| timestamp := t1;
     transactions := [ {| sender := "Alice"; receiver := "Bob"; amount := 50 |};
                       {| sender := "Bob"; receiver := "Kate"; amount := 20 |} ];
     previous_hash := "1708fbce379177ce1fbcc286b4f2580440b7b541e477d608e5e7099959cc1802";
     merkle_tree :=
       {| merkle_root := "0cd1d02717e4a76ff21ecfd4bc2d549645fdf68ec1ddcd209693be08bac388e8" |};
     nonce := 2;
     hash := "0000312c7531374a2d8bafa253348bb111ccd96ee35ba6f9aff610e9c7cb30fb" |}.

Definition block2 : Block :=
  {| timestamp := t2;
     transactions := [ {| sender := "Alice"; receiver := "Jane"; amount := 250 |} ];
     previous_hash := "0000312c7531374a2d8bafa253348bb111ccd96ee35ba6f9aff610e9c7cb30fb";
     merkle_tree :=
       {| merkle_root := "4c12e3ae035b360d0b1a86b15f209efba5ffb395826e797b8475a91cc3b9bdcd" |};
     nonce := 2;
     hash := "0000fed10e8e6ed99c0f6e90f7992949e7077d8838df3a56dbe28be6d2f72433" |}.

(** The ledger that [session] builds from [Blockchain()] at time [t0]. *)
Definition ledger : Blockchain :=
  {| chain := [genesis; block1; block2]; current_transactions := [] |}.

(** The ledger just before and just after the first [add_block]. *)
Definition before1 : Blockchain :=
  {| chain := [genesis]; current_transactions := transactions block1 |}.
Definition after1 : Blockchain :=
  {| chain := [genesis; block1]; current_transactions := [] |}.

(** A second session, in which Alice first appears in the second
    transaction, and the ledger that it builds. *)
Definition t4 : datetime := Datetime 2024 5 1 9 3 11 39256.

Definition late_session : list op :=
  [ AddTransaction "Bob" "Kate" 20; AddTransaction "Alice" "Bob" 50; AddBlock t4 5 ].

Definition late_sender : Blockchain :=
  {| chain :=
       [ genesis;
         {| timestamp := t4;
            transactions := [ {| sender := "Bob"; receiver := "Kate"; amount := 20 |};
                              {| sender := "Alice"; receiver := "Bob"; amount := 50 |} ];
            previous_hash := hash genesis;
            merkle_tree :=
              {| merkle_root :=
                   "a614a3676a1c28ce265c787b865c524bc21cea445a20a8db231685f04ad65b77" |};
            nonce := 1;
            hash := "0000ed524696fc4fd7951449c9308c43c9f708ca352c5e0382669161cca5a993" |} ];
     current_transactions := [] |}.

(** A block as [from_dict] rebuilds it from a stored record whose [hash]
    and [nonce] entries were edited by hand. *)
Definition stale : Block :=
  {| timestamp := t0; transactions := []; previous_hash := "0";
     merkle_tree := {| merkle_root := "" |}; nonce := -1; hash := "0000" |}.

End Sample.

(** * Properties *)

(** ** Facts about the sample session *)

(** The digests of the two short messages of the standard's examples. *)
Example sha256_abc :
  sha256_hex "abc" = "ba7816bf8f01cfea414140de5dae2223b00361a396177a9cb410ff61f20015ad".
Proof. vm_compute. reflexivity. Qed.

Example sha256_empty :
  sha256_hex "" = "e3b0c44298fc1c149afbf4c8996fb92427ae41e4649b934ca495991b7852b855".
Proof. vm_compute. reflexivity. Qed.

Example sha256_constants :
  length Sha256.K = 64%nat /\ nth 0 Sha256.K 0 = 0x428a2f98 /\
  nth 63 Sha256.K 0 = 0xc67178f2 /\ nth 0 Sha256.H0 0 = 0x6a09e667.
Proof. repeat split. Qed.

Module SampleFacts.
Import Sample.

Lemma session_runs : run_ops session (Blockchain_init t0) = Ret ledger.
Proof. vm_compute. reflexivity. Qed.

Lemma ledger_fresh : fresh ledger.
Proof. exists t0, session. exact session_runs. Qed.

Lemma genesis_fresh : fresh (Blockchain_init t0).
Proof. exists t0, []. reflexivity. Qed.

Lemma late_session_runs : run_ops late_session (Blockchain_init t0) = Ret late_sender.
Proof. vm_compute. reflexivity. Qed.

End SampleFacts.

(** ** The Merkle commitment *)

Section Merkle.

Lemma next_level_length (level : list string) :
  length (next_level level) = Nat.div2 (S (length level)).
Proof.
  enough (H : length (next_level level) = Nat.div2 (S (length level)) /\
              forall a, length (next_level (a :: level)) = Nat.div2 (S (S (length level))))
    by apply H.
  induction level as [|b level [IH1 IH2]]; simpl.
  - split; [reflexivity | intros; reflexivity].
  - split; [apply IH2 | intros a; simpl in *; now rewrite IH1].
Qed.

(** Element [i] of the next level combines elements [2i] and [2i+1] of the
    level, or element [2i] with itself when it is the unpaired last one. *)
Lemma next_level_lookup (level : list string) (i : nat) (x : string) :
  level !! (2 * i)%nat = Some x ->
  next_level level !! i = Some (hash_pair x (default x (level !! (2 * i + 1)%nat))).
Proof.
  revert level.
  induction i as [|i IH]; intros level Hx.
  - destruct level as [|a [|b rest]]; simpl in *; try discriminate;
      injection Hx as <-; reflexivity.
  - replace (2 * S i)%nat with (S (S (2 * i))) in Hx by lia.
    replace (2 * S i + 1)%nat with (S (S (2 * i + 1))) by lia.
    destruct level as [|a [|b rest]]; simpl in *; try discriminate.
    apply IH. exact Hx.
Qed.

Lemma create_merkle_root_digest (records : list string) :
  records <> [] -> create_merkle_root records = sha256_hex (spec_reduce records).
Proof.
  funelim (create_merkle_root records); intros Hne.
  - congruence.
  - simp spec_reduce. reflexivity.
  - simp spec_reduce.
    match goal with IH : _ -> create_merkle_root _ = sha256_hex _ |- _ => apply IH end.
    simpl. discriminate.
Qed.

End Merkle.

(** C5, as amended: the commitment is the empty string for no input and the
    digest of the single element for one input; for two or more inputs the
    levels are paired up left to right by index, the last element of an
    odd-length level with itself, until one digest remains, and the
    commitment is the SHA-256 digest of that last digest, not the last
    digest itself. *)
Theorem merkle_root_hashes_last_digest :
  create_merkle_root [] = "" /\
  (forall r, create_merkle_root [r] = sha256_hex r) /\
  (forall records, (2 <= length records)%nat ->
     create_merkle_root records = sha256_hex (spec_reduce records)) /\
  (forall d, spec_reduce [d] = d) /\
  (forall level, (2 <= length level)%nat ->
     spec_reduce level = spec_reduce (next_level level)) /\
  (forall level, length (next_level level) = Nat.div2 (S (length level))) /\
  (forall level (i : nat) x, level !! (2 * i)%nat = Some x ->
     next_level level !! i = Some (hash_pair x (default x (level !! (2 * i + 1)%nat)))).
Proof.
  split; [now simp create_merkle_root |].
  split; [intros; now simp create_merkle_root |].
  split.
  { intros records Hlen. apply create_merkle_root_digest.
    destruct records; simpl in *; [lia | discriminate]. }
  split; [intros; now simp spec_reduce |].
  split.
  { intros [|a [|b rest]] Hlen; simpl in Hlen; try lia. now simp spec_reduce. }
  split; [apply next_level_length | apply next_level_lookup].
Qed.

(** C5, as stated, fails on two inputs: the code returns the digest of the
    digest of the pair, the claimed commitment is the digest of the pair. *)
Lemma merkle_root_two_inputs_differs :
  spec_commit ["a"; "b"] = sha256_hex "ab" /\
  create_merkle_root ["a"; "b"] = sha256_hex (sha256_hex "ab") /\
  create_merkle_root ["a"; "b"] <> spec_commit ["a"; "b"].
Proof.
  split; [vm_compute; reflexivity |].
  split; [vm_compute; reflexivity |].
  vm_compute. discriminate.
Qed.

(** ** Balances *)

Section Balances.

Variable person : string.

Lemma fold_blocks_concat {S : Type} (f : S -> Transaction -> S) (blocks : list Block) (st : S) :
  fold_left (fun st block => fold_left f (transactions block) st) blocks st =
  fold_left f (concat (map transactions blocks)) st.
Proof.
  revert st. induction blocks as [|b blocks IH]; intros st; simpl.
  - reflexivity.
  - rewrite fold_left_app. apply IH.
Qed.

Lemma min_max_fold (txs : list Transaction) (mn : Z) (mx : pynum) (bal : Z) :
  fold_left (min_max_step person) txs (mn, mx, bal) =
  (fold_left Z.min (running_balances person bal txs) mn,
   fold_left py_max (running_balances person bal txs) mx,
   fold_left (balance_step person) txs bal).
Proof.
  revert mn mx bal. induction txs as [|tx txs IH]; intros mn mx bal; simpl.
  - reflexivity.
  - apply IH.
Qed.

(** What the function computes on any ledger. *)
Lemma get_min_max_balance_unfold (self : Blockchain) :
  get_min_max_balance person self =
  (fold_left Z.min (running_balances person 0 (all_transactions self)) 0,
   fold_left py_max (running_balances person 0 (all_transactions self)) NegInf).
Proof.
  unfold get_min_max_balance, all_transactions.
  rewrite fold_blocks_concat, min_max_fold. reflexivity.
Qed.


Lemma balance_step_uninvolved (bal : Z) (tx : Transaction) :
  uninvolved person tx -> balance_step person bal tx = bal.
Proof.
  intros [Hs Hr]. unfold balance_step.
  destruct (String.eqb_spec (sender tx) person); [contradiction|].
  destruct (String.eqb_spec (receiver tx) person); [contradiction|].
  reflexivity.
Qed.




(** The running minimum never exceeds its seed. *)
Lemma fold_min_le (l : list Z) (mn : Z) : fold_left Z.min l mn <= mn.
Proof.
  revert mn. induction l as [|x l IH]; intros mn; simpl; [lia|].
  specialize (IH (Z.min mn x)). lia.
Qed.

Lemma fold_py_max_Int (l : list Z) (m : Z) :
  fold_left py_max l (Int m) = Int (fold_left Z.max l m).
Proof. revert m. induction l as [|x l IH]; intros m; simpl; [reflexivity | apply IH]. Qed.

Lemma fold_max_seed (l : list Z) (a b : Z) :
  fold_left Z.max l (Z.max a b) = Z.max a (fold_left Z.max l b).
Proof.
  revert b. induction l as [|x l IH]; intros b; simpl; [reflexivity|].
  rewrite <- Z.max_assoc. apply IH.
Qed.

Lemma fold_max_ge (l : list Z) (a : Z) :
  a <= fold_left Z.max l a /\ Forall (fun x => x <= fold_left Z.max l a) l.
Proof.
  revert a. induction l as [|x l IH]; intros a; simpl.
  - split; [lia | constructor].
  - destruct (IH (Z.max a x)) as [H1 H2]. split; [lia|].
    constructor; [lia | exact H2].
Qed.

(** The maximum of the code is the maximum of the specification as soon as
    one balance after a transaction is not negative. *)
Lemma max_agrees_when_nonnegative (self : Blockchain) :
  Exists (fun b => 0 <= b) (running_balances person 0 (all_transactions self)) ->
  snd (get_min_max_balance person self) = Int (snd (spec_min_max_balance person self)).
Proof.
  intros Hex. rewrite get_min_max_balance_unfold. unfold spec_min_max_balance. simpl.
  destruct (running_balances person 0 (all_transactions self)) as [|x l];
    [inversion Hex|]. simpl.
  rewrite fold_py_max_Int, fold_max_seed. f_equal.
  destruct (fold_max_ge l x) as [Hx Hl].
  enough (0 <= fold_left Z.max l x) by lia.
  inversion Hex as [? ? H0 | ? ? Hrest]; subst; [lia|].
  apply Exists_exists in Hrest as (y & Hy & Hy0).
  pose proof (proj1 (Forall_forall _ _) Hl y Hy). simpl in *. lia.
Qed.

End Balances.



(** C1 on ledgers a caller can build: the returned minimum is the one
    seeded with 0, hence never above 0, as claimed; the maximum is seeded
    with -inf and not with 0.  It is the claimed maximum once some balance
    after a transaction is not negative, but on the ledger that holds only
    the genesis block it is -inf, and for a person who only ever sends it is
    negative, where the claimed maximum is 0. *)
Theorem min_max_balance_maximum_not_seeded_at_zero :
  (forall person self,
     fst (get_min_max_balance person self) = fst (spec_min_max_balance person self) /\
     fst (get_min_max_balance person self) <= 0) /\
  (forall person self,
     Exists (fun b => 0 <= b) (running_balances person 0 (all_transactions self)) ->
     snd (get_min_max_balance person self) = Int (snd (spec_min_max_balance person self))) /\
  get_min_max_balance "Alice" (Blockchain_init Sample.t0) = (0, NegInf) /\
  spec_min_max_balance "Alice" (Blockchain_init Sample.t0) = (0, 0) /\
  running_balances "Alice" 0 (all_transactions Sample.ledger) = [-50; -50; -300] /\
  get_min_max_balance "Alice" Sample.ledger = (-300, Int (-50)) /\
  spec_min_max_balance "Alice" Sample.ledger = (-300, 0).
Proof.
  split.
  { intros person self. rewrite get_min_max_balance_unfold. simpl.
    split; [reflexivity | apply fold_min_le]. }
  split; [exact max_agrees_when_nonnegative |].
  repeat split; reflexivity.
Qed.

(** ** Proof of work *)

Section ProofOfWork.

Lemma generate_hash_set_hash (h : string) (b : Block) :
  generate_hash (set_hash h b) = generate_hash b.
Proof. reflexivity. Qed.

Lemma Block_init_consistent now txs prev : consistent (Block_init now txs prev).
Proof. reflexivity. Qed.

Lemma set_hash_same (b : Block) : set_hash (hash b) b = b.
Proof. destruct b; reflexivity. Qed.

(** A block whose hash already meets the difficulty is returned as it is,
    whatever the fuel. *)
Lemma proof_of_work_already_sealed (fuel : nat) (b : Block) :
  difficulty_ok (hash b) = true -> proof_of_work fuel b = Ret (hash b, b).
Proof. intros H. destruct fuel; simpl; rewrite H; reflexivity. Qed.

(** The loop ran [k] times. *)
Lemma proof_of_work_iterations (fuel : nat) (b : Block) (h : string) (b' : Block) :
  proof_of_work fuel b = Ret (h, b') ->
  h = hash b' /\ difficulty_ok (hash b') = true /\
  timestamp b' = timestamp b /\ transactions b' = transactions b /\
  previous_hash b' = previous_hash b /\ merkle_tree b' = merkle_tree b /\
  exists k : nat, (k <= fuel)%nat /\ nonce b' = nonce b + Z.of_nat k /\
    (k = 0%nat -> b' = b /\ difficulty_ok (hash b) = true) /\
    ((0 < k)%nat -> consistent b' /\ difficulty_ok (hash b) = false).
Proof.
  revert b. induction fuel as [|fuel IH]; intros b; simpl;
    destruct (difficulty_ok (hash b)) eqn:Hd; simpl; try discriminate.
  - intros [= <- <-]. repeat (split; [solve [auto] |]).
    exists 0%nat. repeat split; try lia; auto.
  - intros [= <- <-]. repeat (split; [solve [auto] |]).
    exists 0%nat. repeat split; try lia; auto.
  - intros Hret. apply IH in Hret.
    destruct Hret as (Hh & Hok & Hts & Htx & Hprev & Hm & k & Hk & Hn & Hk0 & Hkpos).
    simpl in *. repeat (split; [assumption |]).
    exists (S k). split; [lia|]. split; [lia|]. split; [lia|].
    intros _. split; [| reflexivity].
    destruct k as [|k].
    + destruct (Hk0 eq_refl) as [-> _]. reflexivity.
    + apply Hkpos. lia.
Qed.

(** More fuel does not change a result. *)
Lemma proof_of_work_fuel_mono (fuel fuel' : nat) (b : Block) r :
  (fuel <= fuel')%nat -> proof_of_work fuel b = Ret r -> proof_of_work fuel' b = Ret r.
Proof.
  revert fuel' b. induction fuel as [|fuel IH]; intros fuel' b Hle; simpl;
    destruct (difficulty_ok (hash b)) eqn:Hd; simpl; try discriminate.
  - intros <-. now apply proof_of_work_already_sealed.
  - intros <-. now apply proof_of_work_already_sealed.
  - destruct fuel' as [|fuel']; [lia|]. simpl. rewrite Hd. simpl.
    apply IH. lia.
Qed.

End ProofOfWork.

(** C4, as amended: whenever the sealer returns, the stored hash meets the
    difficulty and is the returned value, and the nonce has not decreased; a
    block whose hash met the difficulty on entry is returned unchanged, with
    any fuel; otherwise the nonce has grown and the stored hash is a fresh
    recomputation.  The stored hash is fresh and the nonce is non-negative on
    return provided they were on entry, as they are for every block that the
    constructor builds. *)
Theorem proof_of_work_seals :
  (forall fuel b, difficulty_ok (hash b) = true -> proof_of_work fuel b = Ret (hash b, b)) /\
  (forall fuel b h b', proof_of_work fuel b = Ret (h, b') ->
     difficulty_ok (hash b') = true /\ h = hash b' /\ nonce b <= nonce b' /\
     (difficulty_ok (hash b) = true -> b' = b) /\
     (difficulty_ok (hash b) = false -> nonce b < nonce b' /\ hash b' = generate_hash b') /\
     (hash b = generate_hash b -> hash b' = generate_hash b') /\
     (0 <= nonce b -> 0 <= nonce b')) /\
  (forall now txs prev fuel h b',
     proof_of_work fuel (Block_init now txs prev) = Ret (h, b') ->
     difficulty_ok (hash b') = true /\ h = hash b' /\
     hash b' = generate_hash b' /\ 0 <= nonce b').
Proof.
  assert (Hgen : forall fuel b h b', proof_of_work fuel b = Ret (h, b') ->
     difficulty_ok (hash b') = true /\ h = hash b' /\ nonce b <= nonce b' /\
     (difficulty_ok (hash b) = true -> b' = b) /\
     (difficulty_ok (hash b) = false -> nonce b < nonce b' /\ hash b' = generate_hash b') /\
     (hash b = generate_hash b -> hash b' = generate_hash b') /\
     (0 <= nonce b -> 0 <= nonce b')).
  { intros fuel b h b' Hret.
    destruct (proof_of_work_iterations _ _ _ _ Hret)
      as (Hh & Hok & _ & _ & _ & _ & k & _ & Hn & Hk0 & Hkpos).
    split; [assumption|]. split; [assumption|]. split; [lia|].
    destruct k as [|k].
    - destruct (Hk0 eq_refl) as [-> Hd].
      split; [reflexivity|]. split; [congruence|]. split; [tauto | tauto].
    - destruct (Hkpos ltac:(lia)) as [Hc Hd].
      split; [congruence|]. split; [intros _; split; [lia | exact Hc]|].
      split; [intros _; exact Hc | lia]. }
  split; [apply proof_of_work_already_sealed |]. split; [exact Hgen |].
  intros now txs prev fuel h b' Hret.
  destruct (Hgen _ _ _ _ Hret) as (Hok & Hh & _ & _ & _ & Hc & Hn).
  split; [assumption|]. split; [assumption|].
  split; [apply Hc, Block_init_consistent | apply Hn; simpl; lia].
Qed.

Lemma proof_of_work_seals_witness :
  proof_of_work 0 (Block_init Sample.t3 [] "0")
    = Ret (hash (Block_init Sample.t3 [] "0"), Block_init Sample.t3 [] "0") /\
  proof_of_work 5 (Block_init Sample.t1 (transactions Sample.block1) (hash Sample.genesis))
    = Ret (hash Sample.block1, Sample.block1) /\
  difficulty_ok (hash Sample.block1) = true /\
  0 < nonce Sample.block1 /\
  hash Sample.block1 = generate_hash Sample.block1.
Proof.
  split.
  - apply (proj1 proof_of_work_seals). vm_compute. reflexivity.
  - assert (Hrun : proof_of_work 5
        (Block_init Sample.t1 (transactions Sample.block1) (hash Sample.genesis))
        = Ret (hash Sample.block1, Sample.block1)) by (vm_compute; reflexivity).
    split; [exact Hrun |].
    destruct (proj1 (proj2 proof_of_work_seals) _ _ _ _ Hrun)
      as (Hok & _ & _ & _ & Hgrow & _ & _).
    split; [exact Hok |]. apply Hgrow. vm_compute. reflexivity.
Defined.

(** C4, as stated, fails on a block rebuilt from an edited record: the
    sealer returns at once, the stored hash is not a fresh recomputation and
    the nonce is negative. *)
Lemma proof_of_work_keeps_stale_block :
  from_dict Sample.t3 (to_dict Sample.stale) = Ret Sample.stale /\
  proof_of_work 0 Sample.stale = Ret ("0000", Sample.stale) /\
  hash Sample.stale <> generate_hash Sample.stale /\
  nonce Sample.stale < 0.
Proof.
  split; [vm_compute; reflexivity |].
  split; [vm_compute; reflexivity |].
  split; [vm_compute; discriminate | reflexivity].
Qed.

(** ** Construction of the ledger *)

(** C2, as amended: after [Blockchain()] the chain holds exactly one block,
    with no transactions, previous hash 0, an empty Merkle root and nonce 0;
    its stored hash is the plain digest of these contents.  The block is
    appended without being passed to the sealer, so nothing is promised
    about the leading characters of its hash. *)
Theorem genesis_block_is_not_sealed (now : datetime) :
  exists g,
    chain (Blockchain_init now) = [g] /\
    current_transactions (Blockchain_init now) = [] /\
    timestamp g = now /\ transactions g = [] /\ previous_hash g = "0" /\
    merkle_root (merkle_tree g) = "" /\ nonce g = 0 /\
    hash g = generate_hash g /\
    block_contents g = str_datetime now +:+ "[]" +:+ "0" +:+ "0" +:+ "".
Proof.
  exists (Block_init now [] "0"). repeat split; reflexivity.
Qed.

(** C2, as stated, fails for the ledger built at the sample time: the hash
    of its genesis block does not start with four zeros. *)
Lemma genesis_block_misses_difficulty :
  exists g,
    chain (Blockchain_init Sample.t0) = [g] /\
    hash g = "1708fbce379177ce1fbcc286b4f2580440b7b541e477d608e5e7099959cc1802" /\
    difficulty_ok (hash g) = false.
Proof.
  exists Sample.genesis. repeat split; vm_compute; reflexivity.
Qed.

(** ** Appending blocks *)

Section Appending.

Lemma verify_transactions_Block_init now txs prev :
  verify_transactions (Block_init now txs prev) = true.
Proof. unfold verify_transactions. simpl. apply String.eqb_refl. Qed.

(** The block that a returning [add_block] appends. *)
Lemma add_block_ret now fuel self self' :
  add_block now fuel self = Ret self' ->
  exists prev b,
    last (chain self) = Some prev /\
    chain self' = (chain self ++ [b])%list /\
    current_transactions self' = [] /\
    timestamp b = now /\
    previous_hash b = hash prev /\
    transactions b = current_transactions self /\
    consistent b /\ difficulty_ok (hash b) = true /\
    verify_transactions b = true /\ 0 <= nonce b.
Proof.
  unfold add_block. destruct (last (chain self)) as [prev|] eqn:Hlast; [|discriminate].
  destruct (proof_of_work fuel _) as [[h b']| |] eqn:Hpow; simpl; try discriminate.
  intros [= <-]. simpl.
  pose proof (proof_of_work_iterations _ _ _ _ Hpow)
    as (Hh & Hok & Hts & Htx & Hprev & Hm & k & _ & Hk & Hk0 & Hkpos).
  assert (Hc : consistent b').
  { destruct k as [|k]; [destruct (Hk0 eq_refl) as [-> _]; reflexivity |].
    apply Hkpos. lia. }
  assert (Hn : 0 <= nonce b') by (simpl in Hk; lia).
  subst h. rewrite set_hash_same.
  exists prev, b'. repeat split; try assumption; try reflexivity.
  unfold verify_transactions. rewrite Htx, Hm. simpl. apply String.eqb_refl.
Qed.

Lemma linked_snoc (blocks : list Block) (prev b : Block) :
  linked blocks -> last blocks = Some prev -> previous_hash b = hash prev ->
  linked (blocks ++ [b])%list.
Proof.
  intros Hl Hlast Hb i cur p Hcur Hp.
  destruct (decide (S i < length blocks)%nat) as [Hlt|Hge].
  - rewrite lookup_app_l in Hcur by lia. rewrite lookup_app_l in Hp by lia.
    eapply Hl; eassumption.
  - assert (Hlen : (S i < length (blocks ++ [b])%list)%nat) by (eapply lookup_lt_Some; eassumption).
    rewrite length_app in Hlen. simpl in Hlen.
    assert (Hi : S i = length blocks) by lia.
    rewrite lookup_app_r in Hcur by lia. rewrite Hi, Nat.sub_diag in Hcur.
    injection Hcur as <-.
    rewrite lookup_app_l in Hp by lia.
    rewrite last_lookup in Hlast. rewrite <- Hi in Hlast. simpl in Hlast.
    congruence.
Qed.

Lemma ledger_inv_init now : ledger_inv (Blockchain_init now).
Proof.
  constructor; simpl.
  - discriminate.
  - repeat constructor.
  - intros i cur prev Hcur _. destruct i; discriminate.
  - repeat constructor.
Qed.

Lemma ledger_inv_add_transaction s r a self :
  ledger_inv self -> ledger_inv (add_transaction s r a self).
Proof. intros [H1 H2 H3 H4]. constructor; assumption. Qed.

Lemma ledger_inv_add_block now fuel self self' :
  ledger_inv self -> add_block now fuel self = Ret self' -> ledger_inv self'.
Proof.
  intros [H1 H2 H3 H4] Hadd.
  destruct (add_block_ret _ _ _ _ Hadd)
    as (prev & b & Hlast & Hchain & _ & _ & Hprev & _ & Hc & _ & Hm & _).
  constructor; rewrite Hchain.
  - destruct (chain self); discriminate.
  - apply Forall_app. split; [assumption | repeat constructor; assumption].
  - eapply linked_snoc; eassumption.
  - apply Forall_app. split; [assumption | repeat constructor; assumption].
Qed.

Lemma ledger_inv_run_ops ops self self' :
  ledger_inv self -> run_ops ops self = Ret self' -> ledger_inv self'.
Proof.
  revert self. induction ops as [|o ops IH]; intros self Hinv; simpl.
  - intros [= <-]. assumption.
  - destruct o as [s r a | now fuel]; simpl.
    + apply IH. now apply ledger_inv_add_transaction.
    + destruct (add_block now fuel self) as [self1| |] eqn:Hadd; simpl; try discriminate.
      apply IH. eapply ledger_inv_add_block; eassumption.
Qed.

Lemma fresh_inv self : fresh self -> ledger_inv self.
Proof.
  intros (now & ops & Hrun). eapply ledger_inv_run_ops; [apply ledger_inv_init | exact Hrun].
Qed.

End Appending.

(** C8: a returning [add_block] appends exactly one block, whose previous
    hash is the stored hash of the block that was last and whose
    transactions are the pending buffer, and leaves the buffer empty; it
    returns exactly when the sealer does, and [add_transaction] neither
    appends a block nor empties the buffer.  Hence every ledger built by
    these operations is linked. *)
Theorem add_block_links_and_clears :
  (forall now fuel self self', add_block now fuel self = Ret self' ->
     exists prev b,
       last (chain self) = Some prev /\
       chain self' = (chain self ++ [b])%list /\
       previous_hash b = hash prev /\
       transactions b = current_transactions self /\
       current_transactions self' = []) /\
  (forall now fuel self prev, last (chain self) = Some prev ->
     (exists self', add_block now fuel self = Ret self') <->
     (exists r, proof_of_work fuel
                  (Block_init now (current_transactions self) (hash prev)) = Ret r)) /\
  (forall s r a self,
     chain (add_transaction s r a self) = chain self /\
     current_transactions (add_transaction s r a self) =
       (current_transactions self ++ [{| sender := s; receiver := r; amount := a |}])%list) /\
  (forall self, fresh self ->
     forall (i : nat) cur prev,
       chain self !! S i = Some cur -> chain self !! i = Some prev ->
       previous_hash cur = hash prev).
Proof.
  split.
  { intros now fuel self self' Hadd.
    destruct (add_block_ret _ _ _ _ Hadd)
      as (prev & b & Hlast & Hchain & Hcur & _ & Hprev & Htx & _).
    exists prev, b. auto. }
  split.
  { intros now fuel self prev Hlast. unfold add_block. rewrite Hlast.
    destruct (proof_of_work fuel _) as [[h b']| |]; simpl; split;
      intros [x Hx]; try discriminate; eauto. }
  split; [intros; split; reflexivity |].
  intros self Hfresh. apply (inv_linked _ (fresh_inv _ Hfresh)).
Qed.

Lemma add_block_links_and_clears_witness :
  (exists prev b,
     last (chain Sample.before1) = Some prev /\
     chain Sample.after1 = (chain Sample.before1 ++ [b])%list /\
     previous_hash b = hash prev /\
     transactions b = current_transactions Sample.before1 /\
     current_transactions Sample.after1 = []) /\
  previous_hash Sample.block2 = hash Sample.block1.
Proof.
  split.
  - apply (proj1 add_block_links_and_clears Sample.t1 5%nat Sample.before1 Sample.after1).
    vm_compute. reflexivity.
  - apply (proj2 (proj2 (proj2 add_block_links_and_clears))
             Sample.ledger SampleFacts.ledger_fresh 1%nat); reflexivity.
Defined.

(** ** Verification of the chain *)

Section VerifyChain.

Lemma verify_chain_loop_true (blocks : list Block) (indices : list nat) :
  verify_chain_loop blocks indices = Ret true <-> Forall (passes blocks) indices.
Proof.
  induction indices as [|i rest IH]; simpl.
  - split; [constructor | reflexivity].
  - destruct (blocks !! i) as [cur|] eqn:Hcur;
      [| split; [discriminate | intros H; inversion H as [|? ? (c & p & Hc & _) _]; congruence]].
    destruct (blocks !! (i - 1)%nat) as [prev|] eqn:Hprev;
      [| split; [discriminate |
                 intros H; inversion H as [|? ? (c & p & _ & Hp & _) _]; congruence]].
    destruct (String.eqb_spec (hash cur) (generate_hash cur)) as [Hh|Hh]; simpl.
    + destruct (String.eqb_spec (previous_hash cur) (hash prev)) as [Hl|Hl]; simpl.
      * rewrite IH. split.
        -- intros H. constructor; [exists cur, prev; auto | exact H].
        -- intros H. now inversion H.
      * split; [discriminate|].
        intros H. inversion H as [|? ? (c & p & Hc & Hp & _ & Hlink) _]. congruence.
    + split; [discriminate|].
      intros H. inversion H as [|? ? (c & p & Hc & _ & Hcons & _) _]. congruence.
Qed.

Lemma verify_chain_loop_total (blocks : list Block) (indices : list nat) :
  Forall (fun i => (1 <= i < length blocks)%nat) indices ->
  verify_chain_loop blocks indices = Ret true \/
  verify_chain_loop blocks indices = Ret false.
Proof.
  induction 1 as [|i rest Hi _ IH]; simpl; [now left|].
  destruct (lookup_lt_is_Some_2 blocks i ltac:(lia)) as [cur ->].
  destruct (lookup_lt_is_Some_2 blocks (i - 1) ltac:(lia)) as [prev ->].
  destruct (negb _); [now right|]. destruct (negb _); [now right | exact IH].
Qed.

Lemma verify_chain_total (self : Blockchain) :
  verify_chain self = Ret true \/ verify_chain self = Ret false.
Proof.
  apply verify_chain_loop_total. apply Forall_seq. intros j Hj. lia.
Qed.

Lemma verify_chain_true (self : Blockchain) :
  verify_chain self = Ret true <->
  forall (i : nat) cur prev, (1 <= i)%nat ->
    chain self !! i = Some cur -> chain self !! (i - 1)%nat = Some prev ->
    hash cur = generate_hash cur /\ previous_hash cur = hash prev.
Proof.
  unfold verify_chain. rewrite verify_chain_loop_true, Forall_seq. split.
  - intros H i cur prev Hi Hcur Hprev.
    pose proof (lookup_lt_Some _ _ _ Hcur) as Hlt.
    destruct (H i ltac:(lia)) as (c & p & Hc & Hp & Hcons & Hlink).
    split; congruence.
  - intros H j Hj.
    destruct (lookup_lt_is_Some_2 (chain self) j ltac:(lia)) as [cur Hcur].
    destruct (lookup_lt_is_Some_2 (chain self) (j - 1) ltac:(lia)) as [prev Hprev].
    exists cur, prev. destruct (H j cur prev ltac:(lia) Hcur Hprev). auto.
Qed.

(** A mismatch at some index makes the answer false. *)
Lemma verify_chain_false (self : Blockchain) (i : nat) cur prev :
  (1 <= i)%nat -> chain self !! i = Some cur -> chain self !! (i - 1)%nat = Some prev ->
  hash cur <> generate_hash cur \/ previous_hash cur <> hash prev ->
  verify_chain self = Ret false.
Proof.
  intros Hi Hcur Hprev Hbad.
  destruct (verify_chain_total self) as [Ht|Hf]; [|exact Hf].
  destruct (proj1 (verify_chain_true self) Ht i cur prev Hi Hcur Hprev). tauto.
Qed.

(** Two outcomes that are true together are equal. *)
Lemma verify_chain_ext (self other : Blockchain) :
  (verify_chain self = Ret true <-> verify_chain other = Ret true) ->
  verify_chain self = verify_chain other.
Proof.
  intros H.
  destruct (verify_chain_total self) as [Hs|Hs], (verify_chain_total other) as [Ho|Ho];
    rewrite ?Hs, ?Ho in *; try reflexivity.
  - destruct H as [H _]. specialize (H eq_refl). discriminate.
  - destruct H as [_ H]. specialize (H eq_refl). discriminate.
Qed.

(** Of the genesis block, only the stored hash is ever read. *)
Lemma verify_chain_genesis (g g' : Block) (rest : list Block) (p p' : list Transaction) :
  hash g' = hash g ->
  verify_chain {| chain := g' :: rest; current_transactions := p' |} =
  verify_chain {| chain := g :: rest; current_transactions := p |}.
Proof.
  intros Hh. apply verify_chain_ext. rewrite !verify_chain_true. simpl.
  split; intros H i cur prev Hi Hcur Hprev;
    (destruct i as [|[|i]]; [lia | | ]; simpl in *;
     [ injection Hprev as <-;
       first [ destruct (H 1%nat cur g' ltac:(lia) Hcur eq_refl)
             | destruct (H 1%nat cur g ltac:(lia) Hcur eq_refl) ];
       split; congruence
     | apply (H (S (S i)) cur prev ltac:(lia)); simpl; assumption ]).
Qed.

End VerifyChain.

(** C6: [verify_chain] answers true exactly when every block at an index of
    at least 1 has a stored hash equal to a fresh recomputation and a
    previous hash equal to the stored hash of its predecessor; it always
    answers, and answers false as soon as a block fails, whatever follows
    that block; the genesis block is read only for its stored hash, so a
    genesis block whose own hash is stale does not change the answer. *)
Theorem verify_chain_checks_all_but_genesis :
  (forall self, verify_chain self = Ret true <->
     forall (i : nat) cur prev, (1 <= i)%nat ->
       chain self !! i = Some cur -> chain self !! (i - 1)%nat = Some prev ->
       hash cur = generate_hash cur /\ previous_hash cur = hash prev) /\
  (forall self, verify_chain self = Ret true \/ verify_chain self = Ret false) /\
  (forall self (i : nat) cur prev others, (1 <= i)%nat ->
     chain self !! i = Some cur -> chain self !! (i - 1)%nat = Some prev ->
     hash cur <> generate_hash cur \/ previous_hash cur <> hash prev ->
     verify_chain {| chain := take (S i) (chain self) ++ others;
                     current_transactions := current_transactions self |} = Ret false) /\
  (forall g g' rest pending, hash g' = hash g ->
     verify_chain {| chain := g' :: rest; current_transactions := pending |} =
     verify_chain {| chain := g :: rest; current_transactions := pending |}).
Proof.
  split; [exact verify_chain_true |]. split; [exact verify_chain_total |]. split.
  - intros self i cur prev others Hi Hcur Hprev Hbad.
    pose proof (lookup_lt_Some _ _ _ Hcur) as Hlt.
    apply (verify_chain_false _ i cur prev Hi); simpl; try assumption.
    + rewrite lookup_app_l by (rewrite length_take; lia).
      rewrite lookup_take_lt by lia. exact Hcur.
    + rewrite lookup_app_l by (rewrite length_take; lia).
      rewrite lookup_take_lt by lia. exact Hprev.
  - intros. now apply verify_chain_genesis.
Qed.

(** The sample ledger with the nonce of its genesis block overwritten: the
    genesis hash is stale, and the chain still verifies. *)
Lemma verify_chain_checks_all_but_genesis_witness :
  hash (set_nonce 7 Sample.genesis) <> generate_hash (set_nonce 7 Sample.genesis) /\
  verify_chain {| chain := [set_nonce 7 Sample.genesis; Sample.block1; Sample.block2];
                  current_transactions := [] |} = Ret true.
Proof.
  split; [vm_compute; discriminate |].
  rewrite (proj2 (proj2 (proj2 verify_chain_checks_all_but_genesis))
             Sample.genesis (set_nonce 7 Sample.genesis)
             [Sample.block1; Sample.block2] [] eq_refl).
  vm_compute. reflexivity.
Defined.

(** ** Tampering with stored fields *)

(** C3, as amended: a freshly built chain has at least one block and
    verifies; overwriting the stored hash or the previous hash of a block at
    an index of at least 1 with another value, or the stored hash of the
    genesis block of a chain of two blocks or more, makes verification
    answer false.  The previous hash of the genesis block, and its stored
    hash when it is the only block, are never read: overwriting them leaves
    the answer true. *)
Theorem verify_chain_detects_tampering (self : Blockchain) (Hfresh : fresh self) :
  (1 <= length (chain self))%nat /\
  verify_chain self = Ret true /\
  (forall (i : nat) b h, chain self !! i = Some b -> h <> hash b ->
     (1 <= i \/ 2 <= length (chain self))%nat ->
     verify_chain (tamper_hash i h self) = Ret false) /\
  (forall (i : nat) b p, chain self !! i = Some b -> p <> previous_hash b ->
     (1 <= i)%nat ->
     verify_chain (tamper_previous_hash i p self) = Ret false) /\
  (forall p, verify_chain (tamper_previous_hash 0 p self) = Ret true) /\
  (length (chain self) = 1%nat ->
     forall h, verify_chain (tamper_hash 0 h self) = Ret true).
Proof.
  destruct (fresh_inv _ Hfresh) as [Hne Hcons Hlink _].
  assert (Hok : verify_chain self = Ret true).
  { apply verify_chain_true. intros i cur prev Hi Hcur Hprev. split.
    - exact (proj1 (Forall_lookup _ _) Hcons _ _ Hcur).
    - apply (Hlink (i - 1)%nat); [| exact Hprev].
      replace (S (i - 1)) with i by lia. exact Hcur. }
  split; [destruct (chain self); [congruence | simpl; lia] |].
  split; [exact Hok |].
  split; [| split; [| split]].
  - intros i b h Hb Hh Hi.
    pose proof (lookup_lt_Some _ _ _ Hb) as Hlt.
    destruct i as [|i].
    + destruct (lookup_lt_is_Some_2 (chain self) 1 ltac:(lia)) as [cur Hcur].
      apply (verify_chain_false _ 1 cur (set_hash h b)); simpl; [lia | | |].
      * rewrite list_lookup_alter_ne by lia. exact Hcur.
      * rewrite list_lookup_alter_eq, Hb. reflexivity.
      * right. rewrite (Hlink 0%nat cur b Hcur Hb). congruence.
    + destruct (lookup_lt_is_Some_2 (chain self) i ltac:(lia)) as [prev Hprev].
      apply (verify_chain_false _ (S i) (set_hash h b) prev); simpl; [lia | | |].
      * rewrite list_lookup_alter_eq, Hb. reflexivity.
      * rewrite Nat.sub_0_r, list_lookup_alter_ne by lia. exact Hprev.
      * left. rewrite generate_hash_set_hash.
        rewrite <- (proj1 (Forall_lookup _ _) Hcons _ _ Hb). exact Hh.
  - intros i b p Hb Hp Hi.
    pose proof (lookup_lt_Some _ _ _ Hb) as Hlt.
    destruct i as [|i]; [lia|].
    destruct (lookup_lt_is_Some_2 (chain self) i ltac:(lia)) as [prev Hprev].
    apply (verify_chain_false _ (S i) (set_previous_hash p b) prev); simpl; [lia | | |].
    + rewrite list_lookup_alter_eq, Hb. reflexivity.
    + rewrite Nat.sub_0_r, list_lookup_alter_ne by lia. exact Hprev.
    + right. simpl. rewrite <- (Hlink i b prev Hb Hprev). exact Hp.
  - intros p. unfold tamper_previous_hash.
    destruct self as [[|g rest] pending]; simpl in *; [congruence|].
    rewrite <- Hok. now apply verify_chain_genesis.
  - intros Hlen h. unfold tamper_hash.
    destruct self as [[|g [|g1 rest]] pending]; simpl in *; try discriminate.
    reflexivity.
Qed.

Lemma verify_chain_detects_tampering_witness :
  (1 <= length (chain Sample.ledger))%nat /\
  verify_chain Sample.ledger = Ret true /\
  verify_chain (tamper_hash 2 "f00d" Sample.ledger) = Ret false /\
  verify_chain (tamper_hash 0 "f00d" Sample.ledger) = Ret false /\
  verify_chain (tamper_previous_hash 1 "f00d" Sample.ledger) = Ret false /\
  verify_chain (tamper_previous_hash 0 "f00d" Sample.ledger) = Ret true.
Proof.
  destruct (verify_chain_detects_tampering Sample.ledger SampleFacts.ledger_fresh)
    as (Hlen & Hok & Hhash & Hprev & Hgen & _).
  split; [exact Hlen |]. split; [exact Hok |].
  split; [apply (Hhash 2%nat Sample.block2); [reflexivity | discriminate | lia] |].
  split; [apply (Hhash 0%nat Sample.genesis); [reflexivity | discriminate | simpl; lia] |].
  split; [apply (Hprev 1%nat Sample.block1); [reflexivity | discriminate | lia] |].
  apply Hgen.
Defined.

(** C3, as stated, fails at the genesis block: on the freshly built
    one-block chain an overwritten genesis hash goes unnoticed, and on the
    freshly built sample chain an overwritten genesis previous hash does. *)
Lemma verify_chain_misses_genesis_tampering :
  fresh (Blockchain_init Sample.t0) /\
  chain (Blockchain_init Sample.t0) !! 0%nat = Some Sample.genesis /\
  "f00d" <> hash Sample.genesis /\
  verify_chain (tamper_hash 0 "f00d" (Blockchain_init Sample.t0)) = Ret true /\
  fresh Sample.ledger /\
  chain Sample.ledger !! 0%nat = Some Sample.genesis /\
  "1" <> previous_hash Sample.genesis /\
  verify_chain (tamper_previous_hash 0 "1" Sample.ledger) = Ret true.
Proof.
  split; [exact SampleFacts.genesis_fresh |].
  split; [vm_compute; reflexivity |].
  split; [discriminate |].
  split; [vm_compute; reflexivity |].
  split; [exact SampleFacts.ledger_fresh |].
  split; [reflexivity |].
  split; [discriminate |].
  vm_compute. reflexivity.
Qed.

(** ** Stored records *)

Section Timestamps.

Lemma str_app_cons (x : ascii) (a b : string) : String x a +:+ b = String x (a +:+ b).
Proof. reflexivity. Qed.

Lemma str_app_nil_l (b : string) : "" +:+ b = b.
Proof. reflexivity. Qed.

Lemma str_app_assoc (a b c : string) : (a +:+ b) +:+ c = a +:+ (b +:+ c).
Proof.
  induction a as [|x a IH]; [reflexivity|].
  rewrite !str_app_cons. f_equal. exact IH.
Qed.

Lemma str_app_nil_r (a : string) : a +:+ "" = a.
Proof.
  induction a as [|x a IH]; [reflexivity|].
  rewrite str_app_cons. f_equal. exact IH.
Qed.

Lemma str_app_length (a b : string) :
  String.length (a +:+ b) = (String.length a + String.length b)%nat.
Proof.
  induction a as [|x a IH]; [reflexivity|].
  rewrite str_app_cons. simpl. now rewrite IH.
Qed.

Lemma digits_length (k : nat) (n : Z) : String.length (digits k n) = k.
Proof.
  revert n. induction k as [|k IH]; intros n; simpl; [reflexivity|].
  rewrite str_app_length, IH. simpl. lia.
Qed.

Lemma digit_val_digit_char (d : Z) : 0 <= d <= 9 -> digit_val (digit_char d) = Some d.
Proof.
  intros Hd.
  assert (H : d = 0 \/ d = 1 \/ d = 2 \/ d = 3 \/ d = 4 \/ d = 5 \/ d = 6 \/
              d = 7 \/ d = 8 \/ d = 9) by lia.
  repeat (destruct H as [-> | H]; [reflexivity |]). subst d. reflexivity.
Qed.

(** Reading one more digit is reading the first [k] and then one. *)
Lemma take_digits_S (k : nat) (acc : Z) (s : string) :
  take_digits (S k) acc s =
  match take_digits k acc s with
  | Ret (a, s') => take_digits 1 a s'
  | Raise e => Raise e
  | OutOfFuel => OutOfFuel
  end.
Proof.
  revert acc s. induction k as [|k IH]; intros acc s; [reflexivity|].
  change (take_digits (S (S k)) acc s) with
    (match s with
     | EmptyString => Raise ValueError
     | String c s' =>
         match digit_val c with
         | Some d => take_digits (S k) (10 * acc + d) s'
         | None => Raise ValueError
         end
     end).
  destruct s as [|c s']; [reflexivity|]. simpl (take_digits (S k) acc (String c s')).
  destruct (digit_val c) as [d|]; [| reflexivity].
  apply IH.
Qed.

Lemma take_digits_digits (k : nat) (n acc : Z) (rest : string) :
  0 <= n < 10 ^ Z.of_nat k ->
  take_digits k acc (digits k n +:+ rest) = Ret (acc * 10 ^ Z.of_nat k + n, rest).
Proof.
  revert n acc rest. induction k as [|k IH]; intros n acc rest Hn.
  - simpl in *. f_equal. f_equal. lia.
  - rewrite take_digits_S.
    change (digits (S k) n) with (digits k (n / 10) +:+ String (digit_char (n mod 10)) "").
    rewrite str_app_assoc.
    rewrite Nat2Z.inj_succ, Z.pow_succ_r in * by lia.
    rewrite IH by (split; [apply Z.div_pos; lia | apply Z.div_lt_upper_bound; lia]).
    simpl. rewrite digit_val_digit_char by (pose proof (Z.mod_pos_bound n 10); lia).
    f_equal. f_equal. pose proof (Z.div_mod n 10). lia.
Qed.

Lemma days_in_month_le (y m : Z) : days_in_month y m <= 31.
Proof.
  unfold days_in_month.
  repeat match goal with |- context [if ?c then _ else _] => destruct c end; lia.
Qed.

(** [datetime.fromisoformat(str(t)) == t] *)
Lemma fromisoformat_str_datetime (t : datetime) :
  valid_datetime t = true -> fromisoformat (str_datetime t) = Ret t.
Proof.
  intros Hvalid. pose proof Hvalid as Hv.
  destruct t as [y m d h mi s us].
  unfold valid_datetime, between in Hv. simpl in Hv.
  rewrite !andb_true_iff, !Z.leb_le in Hv.
  pose proof (days_in_month_le y m) as Hdays.
  unfold str_datetime, fromisoformat. simpl year; simpl month; simpl day; simpl hour;
    simpl minute; simpl second; simpl microsecond.
  rewrite !str_app_cons, !str_app_nil_l.
  rewrite take_digits_digits by (simpl; lia). cbn [mbind outcome_bind expect Ascii.eqb Bool.eqb].
  rewrite take_digits_digits by (simpl; lia). cbn [mbind outcome_bind expect Ascii.eqb Bool.eqb].
  rewrite take_digits_digits by (simpl; lia). cbn [mbind outcome_bind expect Ascii.eqb Bool.eqb].
  unfold parse_time.
  rewrite take_digits_digits by (simpl; lia). cbn [mbind outcome_bind expect Ascii.eqb Bool.eqb].
  rewrite take_digits_digits by (simpl; lia). cbn [mbind outcome_bind expect Ascii.eqb Bool.eqb].
  rewrite take_digits_digits by (simpl; lia). cbn [mbind outcome_bind].
  replace (0 * 10 ^ Z.of_nat 4 + y) with y by lia.
  replace (0 * 10 ^ Z.of_nat 2 + m) with m by lia.
  replace (0 * 10 ^ Z.of_nat 2 + d) with d by lia.
  replace (0 * 10 ^ Z.of_nat 2 + h) with h by lia.
  replace (0 * 10 ^ Z.of_nat 2 + mi) with mi by lia.
  replace (0 * 10 ^ Z.of_nat 2 + s) with s by lia.
  destruct (Z.eqb_spec us 0) as [-> | Hus].
  - cbn [parse_fraction mbind outcome_bind]. unfold checked. now rewrite Hvalid.
  - unfold parse_fraction. cbn [mbind outcome_bind expect Ascii.eqb Bool.eqb].
    rewrite digits_length. cbn [Nat.eqb].
    rewrite <- (str_app_nil_r (digits 6 us)).
    rewrite take_digits_digits by (simpl; lia). cbn [mbind outcome_bind].
    replace (0 * 10 ^ Z.of_nat 6 + us) with us by lia.
    unfold checked. now rewrite Hvalid.
Qed.

End Timestamps.

Section Records.

Lemma to_dict_lookups (b : Block) :
  to_dict b !! "timestamp" = Some (PStr (str_datetime (timestamp b))) /\
  to_dict b !! "transactions" = Some (PTxs (transactions b)) /\
  to_dict b !! "previous_hash" = Some (PStr (previous_hash b)) /\
  to_dict b !! "nonce" = Some (PInt (nonce b)) /\
  to_dict b !! "hash" = Some (PStr (hash b)) /\
  to_dict b !! "merkle_root" = Some (PStr (merkle_root (merkle_tree b))).
Proof. unfold to_dict. repeat split; by simplify_map_eq. Qed.

Lemma MerkleTree_init_stored (root : string) :
  MerkleTree_init [] root = {| merkle_root := root |}.
Proof.
  unfold MerkleTree_init. destruct (String.eqb_spec root "") as [-> | _]; [|reflexivity].
  now simp create_merkle_root.
Qed.

(** Decoding an encoded block gives the block back. *)
Lemma from_dict_to_dict (now : datetime) (b : Block) :
  valid_datetime (timestamp b) = true -> from_dict now (to_dict b) = Ret b.
Proof.
  intros Hvalid.
  destruct (to_dict_lookups b) as (Hts & Htx & Hprev & Hn & Hh & Hm).
  unfold from_dict, getitem. rewrite Hts, Htx, Hprev, Hn, Hh, Hm.
  cbn [mbind outcome_bind as_txs as_str as_int].
  rewrite (fromisoformat_str_datetime _ Hvalid). cbn [mbind outcome_bind].
  rewrite MerkleTree_init_stored. destruct b as [ts txs prev [root] n h]. reflexivity.
Qed.

Lemma from_dicts_to_dicts (now : datetime) (blocks : list Block) :
  Forall (fun b => valid_datetime (timestamp b) = true) blocks ->
  from_dicts now (to_dicts blocks) = Ret blocks.
Proof.
  induction 1 as [|b blocks Hb _ IH]; [reflexivity|].
  change (from_dicts now (to_dicts (b :: blocks))) with
    (block ← from_dict now (to_dict b);
     rest ← from_dicts now (to_dicts blocks);
     Ret (block :: rest)).
  rewrite (from_dict_to_dict now b Hb), IH. reflexivity.
Qed.

End Records.

(** C7: encoding every block of a chain with [to_dict] and rebuilding every
    block with [from_dict] gives the same blocks back, so a chain that
    verified before the round trip verifies after it, for the hash links and
    for the Merkle roots.  Timestamps are [datetime] values, within the
    ranges that the class enforces. *)
Theorem round_trip_preserves_verification (now : datetime) (self : Blockchain)
  (pending : list Transaction)
  (Hts : Forall (fun b => valid_datetime (timestamp b) = true) (chain self))
  (Hchain : verify_chain self = Ret true)
  (Htxs : verify_all_transactions self = true) :
  exists blocks,
    from_dicts now (to_dicts (chain self)) = Ret blocks /\
    blocks = chain self /\
    verify_chain {| chain := blocks; current_transactions := pending |} = Ret true /\
    verify_all_transactions {| chain := blocks; current_transactions := pending |} = true.
Proof.
  exists (chain self). split; [now apply from_dicts_to_dicts |].
  split; [reflexivity |]. split; [exact Hchain | exact Htxs].
Qed.

Lemma round_trip_preserves_verification_witness :
  exists blocks,
    from_dicts Sample.t3 (to_dicts (chain Sample.ledger)) = Ret blocks /\
    blocks = chain Sample.ledger /\
    verify_chain {| chain := blocks; current_transactions := [] |} = Ret true /\
    verify_all_transactions {| chain := blocks; current_transactions := [] |} = true.
Proof.
  apply (round_trip_preserves_verification Sample.t3 Sample.ledger []).
  - repeat constructor.
  - vm_compute. reflexivity.
  - vm_compute. reflexivity.
Defined.

Section Malformed.

Lemma required_fields_elem (k : string) :
  k ∈ required_fields <->
  k = "timestamp" \/ k = "transactions" \/ k = "previous_hash" \/
  k = "nonce" \/ k = "hash" \/ k = "merkle_root".
Proof.
  unfold required_fields. rewrite !elem_of_cons, elem_of_nil. tauto.
Qed.

Ltac key_error :=
  right; right; eexists; split;
  [reflexivity | split; [apply required_fields_elem; tauto | assumption]].

Lemma value_error_only_bind {A B : Type} (m : outcome A) (f : A -> outcome B) :
  value_error_only m -> (forall a, value_error_only (f a)) -> value_error_only (m ≫= f).
Proof. destruct m as [a|e|]; simpl; auto. Qed.

Lemma take_digits_errors (k : nat) (acc : Z) (s : string) :
  value_error_only (take_digits k acc s).
Proof.
  revert acc s. induction k as [|k IH]; intros acc s; simpl; [exact I|].
  destruct s as [|c s]; [reflexivity|].
  destruct (digit_val c); [apply IH | reflexivity].
Qed.

Lemma expect_errors (c : ascii) (s : string) : value_error_only (expect c s).
Proof.
  destruct s as [|a s]; simpl; [reflexivity|]. destruct (Ascii.eqb a c); simpl; auto.
Qed.

Lemma checked_errors (t : datetime) : value_error_only (checked t).
Proof. unfold checked. destruct (valid_datetime t); simpl; auto. Qed.

Lemma parse_fraction_errors (s : string) : value_error_only (parse_fraction s).
Proof.
  unfold parse_fraction. destruct s as [|c s]; [exact I|].
  apply value_error_only_bind; [apply expect_errors|]. intros s'.
  destruct (String.length s' =? 3)%nat;
    (apply value_error_only_bind; [apply take_digits_errors|]);
    intros [n [|x r]]; simpl; auto.
Qed.

Lemma parse_time_errors (s : string) : value_error_only (parse_time s).
Proof.
  unfold parse_time.
  apply value_error_only_bind; [apply take_digits_errors|]. intros [h [|c r]]; [exact I|].
  apply value_error_only_bind; [apply expect_errors|]. intros s1.
  apply value_error_only_bind; [apply take_digits_errors|]. intros [mi [|c2 r2]]; [exact I|].
  apply value_error_only_bind; [apply expect_errors|]. intros s2.
  apply value_error_only_bind; [apply take_digits_errors|]. intros [sec r3].
  apply value_error_only_bind; [apply parse_fraction_errors|]. intros us. exact I.
Qed.

Lemma fromisoformat_errors (s : string) : value_error_only (fromisoformat s).
Proof.
  unfold fromisoformat.
  apply value_error_only_bind; [apply take_digits_errors|]. intros [y s1].
  apply value_error_only_bind; [apply expect_errors|]. intros s2.
  apply value_error_only_bind; [apply take_digits_errors|]. intros [m s3].
  apply value_error_only_bind; [apply expect_errors|]. intros s4.
  apply value_error_only_bind; [apply take_digits_errors|]. intros [d [|c r]].
  - apply checked_errors.
  - apply value_error_only_bind; [apply parse_time_errors|].
    intros [[[h mi] sec] us]. apply checked_errors.
Qed.

(** Every outcome of [from_dict]. *)
Lemma from_dict_cases (now : datetime) (data : gmap string pyval) :
  match from_dict now data with
  | Ret b => stores data b
  | Raise e => format_error data e
  | OutOfFuel => False
  end.
Proof.
  unfold from_dict, getitem, format_error.
  destruct (data !! "transactions") as [v_txs|] eqn:Htxs;
    cbn [mbind outcome_bind]; [| key_error].
  destruct (data !! "previous_hash") as [v_prev|] eqn:Hprev;
    cbn [mbind outcome_bind]; [| key_error].
  destruct v_txs as [?|?|txs]; cbn [mbind outcome_bind as_txs]; try (left; reflexivity).
  destruct v_prev as [prev|?|?]; cbn [mbind outcome_bind as_str]; try (left; reflexivity).
  destruct (data !! "timestamp") as [v_ts|] eqn:Hts;
    cbn [mbind outcome_bind]; [| key_error].
  destruct v_ts as [ts|?|?]; cbn [mbind outcome_bind as_str]; try (left; reflexivity).
  pose proof (fromisoformat_errors ts) as Herr.
  destruct (fromisoformat ts) as [t|e|] eqn:Hparse; cbn [mbind outcome_bind];
    [| simpl in Herr; subst e; right; left; reflexivity | exact Herr].
  destruct (data !! "nonce") as [v_nonce|] eqn:Hnonce;
    cbn [mbind outcome_bind]; [| key_error].
  destruct v_nonce as [?|n|?]; cbn [mbind outcome_bind as_int]; try (left; reflexivity).
  destruct (data !! "hash") as [v_hash|] eqn:Hhash;
    cbn [mbind outcome_bind]; [| key_error].
  destruct v_hash as [h|?|?]; cbn [mbind outcome_bind as_str]; try (left; reflexivity).
  destruct (data !! "merkle_root") as [v_root|] eqn:Hroot;
    cbn [mbind outcome_bind]; [| key_error].
  destruct v_root as [root|?|?]; cbn [mbind outcome_bind as_str]; try (left; reflexivity).
  rewrite MerkleTree_init_stored. unfold stores. simpl.
  rewrite Htxs, Hprev, Hts, Hnonce, Hhash, Hroot. repeat split; eauto.
Qed.

End Malformed.

(** C9: rebuilding a block from a stored record that lacks one of the six
    required fields raises an error, which is an exception and not a
    returned boolean: [KeyError] for an absent required field, unless a
    malformed present value was met first.  When [from_dict] returns a
    block, each of its fields is the stored value, so no field is ever
    defaulted; and a record that lacks exactly one field of an encoded block
    fails with [KeyError] for that field. *)
Theorem from_dict_missing_field_raises :
  (forall now data key, key ∈ required_fields -> data !! key = None ->
     exists e, from_dict now data = Raise e /\ format_error data e) /\
  (forall now data b, from_dict now data = Ret b -> stores data b) /\
  (forall now b key, valid_datetime (timestamp b) = true -> key ∈ required_fields ->
     from_dict now (delete key (to_dict b)) = Raise (KeyError key)).
Proof.
  split; [| split].
  - intros now data key Hkey Hnone.
    pose proof (from_dict_cases now data) as Hcases.
    destruct (from_dict now data) as [b|e|]; [| eauto | contradiction].
    exfalso. destruct Hcases as ((ts & Hts & _) & Htx & Hprev & Hn & Hh & Hm).
    apply required_fields_elem in Hkey.
    repeat (destruct Hkey as [-> | Hkey]; [congruence |]). congruence.
  - intros now data b Hret. pose proof (from_dict_cases now data) as Hcases.
    now rewrite Hret in Hcases.
  - intros now b key Hvalid Hkey.
    destruct (to_dict_lookups b) as (Hts & Htx & Hprev & Hn & Hh & Hm).
    apply required_fields_elem in Hkey.
    destruct Hkey as [-> | [-> | [-> | [-> | [-> | ->]]]]];
      unfold from_dict, getitem;
      rewrite ?lookup_delete_eq, ?lookup_delete_ne by discriminate;
      rewrite ?Hts, ?Htx, ?Hprev, ?Hn, ?Hh, ?Hm;
      cbn [mbind outcome_bind as_txs as_str as_int];
      try rewrite (fromisoformat_str_datetime _ Hvalid);
      reflexivity.
Qed.

Lemma from_dict_missing_field_raises_witness :
  (exists e, from_dict Sample.t3 (delete "nonce" (to_dict Sample.block1)) = Raise e /\
             format_error (delete "nonce" (to_dict Sample.block1)) e) /\
  from_dict Sample.t3 (delete "merkle_root" (to_dict Sample.block1))
    = Raise (KeyError "merkle_root").
Proof.
  split.
  - apply (proj1 from_dict_missing_field_raises Sample.t3 _ "nonce").
    + apply required_fields_elem. tauto.
    + apply lookup_delete_eq.
  - apply (proj2 (proj2 from_dict_missing_field_raises) Sample.t3 Sample.block1).
    + reflexivity.
    + apply required_fields_elem. tauto.
Defined.

(** * Further properties of the ledger *)

(** ** Balances over the whole ledger *)

Section Ledger.

Lemma get_balance_unfold (person : string) (self : Blockchain) :
  get_balance person self = fold_left (balance_step person) (all_transactions self) 0.
Proof. unfold get_balance, all_transactions. apply fold_blocks_concat. Qed.

Lemma balance_step_delta (p : string) (bal : Z) (tx : Transaction) :
  balance_step p bal tx = bal + delta tx p.
Proof.
  unfold balance_step, delta.
  destruct (sender tx =? p)%string, (receiver tx =? p)%string; lia.
Qed.

Lemma sum_indicator (persons : list string) (k : string) (c : Z) :
  NoDup persons -> k ∈ persons ->
  fold_right Z.add 0 (map (fun p => if (k =? p)%string then c else 0) persons) = c.
Proof.
  induction 1 as [|p persons Hp Hnd IH]; intros Hk; [inversion Hk|]. simpl.
  destruct (String.eqb_spec k p) as [-> | Hne].
  - assert (Hzero : forall l : list string, p ∉ l ->
      fold_right Z.add 0 (map (fun q => if (p =? q)%string then c else 0) l) = 0).
    { induction l as [|q l IHl]; intros Hq; simpl; [reflexivity|].
      apply not_elem_of_cons in Hq as [Hpq Hq].
      destruct (String.eqb_spec p q); [congruence|]. rewrite IHl by assumption. lia. }
    rewrite Hzero by assumption. lia.
  - apply elem_of_cons in Hk as [Hk | Hk]; [congruence|]. rewrite IH by assumption. lia.
Qed.

Lemma sum_add (f g : string -> Z) (persons : list string) :
  fold_right Z.add 0 (map (fun p => f p + g p) persons) =
  fold_right Z.add 0 (map f persons) + fold_right Z.add 0 (map g persons).
Proof. induction persons as [|p persons IH]; simpl; [reflexivity | rewrite IH; lia]. Qed.

Lemma sum_delta (persons : list string) (tx : Transaction) :
  NoDup persons -> parties_in persons tx ->
  fold_right Z.add 0 (map (delta tx) persons) = 0.
Proof.
  intros Hnd [Hs Hr]. unfold delta.
  rewrite (sum_add (fun p => if (sender tx =? p)%string then - amount tx else 0)
                   (fun p => if (receiver tx =? p)%string then amount tx else 0)).
  rewrite !sum_indicator by assumption. lia.
Qed.

Lemma sum_fold_balances (persons : list string) (txs : list Transaction) (init : string -> Z) :
  NoDup persons -> Forall (parties_in persons) txs ->
  fold_right Z.add 0 (map (fun p => fold_left (balance_step p) txs (init p)) persons) =
  fold_right Z.add 0 (map init persons).
Proof.
  intros Hnd Htxs. revert init.
  induction Htxs as [|tx txs Htx _ IH]; intros init; simpl; [reflexivity|].
  rewrite (IH (fun p => balance_step p (init p) tx)).
  erewrite map_ext; [| intros p; apply balance_step_delta].
  rewrite (sum_add init (delta tx)), sum_delta by assumption. lia.
Qed.

End Ledger.

(** X1: transfers of integer amounts only move money.  When all amounts are
    integers, as in this embedding, then over any list of distinct persons
    that holds both parties of every transaction of the chain, the balances
    sum to zero. *)
Theorem balances_sum_to_zero (persons : list string) (self : Blockchain)
  (Hnd : NoDup persons)
  (Hall : Forall (parties_in persons) (all_transactions self)) :
  total_balance persons self = 0.
Proof.
  unfold total_balance.
  erewrite map_ext; [| intros p; apply get_balance_unfold].
  rewrite (sum_fold_balances persons _ (fun _ => 0) Hnd Hall).
  clear. induction persons as [|p persons IH]; simpl; [reflexivity | lia].
Qed.

Lemma balances_sum_to_zero_witness :
  total_balance ["Alice"; "Bob"; "Kate"; "Jane"] Sample.ledger = 0.
Proof.
  apply balances_sum_to_zero.
  - repeat (apply NoDup_cons; split;
            [rewrite ?elem_of_cons, elem_of_nil; intuition discriminate |]).
    apply NoDup_nil_2.
  - repeat (apply Forall_cons; split;
            [split; simpl; rewrite ?elem_of_cons; tauto |]).
    apply Forall_nil_2.
Defined.

(** X2: pending transactions do not count.  [add_transaction] changes no
    balance; a returning [add_block] changes each balance by the effect of
    the transactions that were pending, applied in order. *)
Theorem balance_changes_only_on_add_block :
  (forall person s r a self,
     get_balance person (add_transaction s r a self) = get_balance person self) /\
  (forall person now fuel self self', add_block now fuel self = Ret self' ->
     get_balance person self' =
       fold_left (balance_step person) (current_transactions self)
                 (get_balance person self)).
Proof.
  split; [reflexivity |].
  intros person now fuel self self' Hadd.
  destruct (add_block_ret _ _ _ _ Hadd)
    as (prev & b & _ & Hchain & _ & _ & _ & Htx & _).
  unfold get_balance. rewrite Hchain, fold_left_app. simpl. now rewrite Htx.
Qed.

Lemma balance_changes_only_on_add_block_witness :
  get_balance "Bob" Sample.after1 =
    fold_left (balance_step "Bob") (current_transactions Sample.before1)
              (get_balance "Bob" Sample.before1).
Proof.
  apply (proj2 balance_changes_only_on_add_block "Bob" Sample.t1 5%nat).
  vm_compute. reflexivity.
Defined.

(** X3: a person who is party to no transaction of the chain has balance 0. *)
Theorem balance_of_uninvolved_person (person : string) (self : Blockchain)
  (Hun : Forall (uninvolved person) (all_transactions self)) :
  get_balance person self = 0.
Proof.
  rewrite get_balance_unfold.
  induction Hun as [|tx txs Htx _ IH]; simpl; [reflexivity|].
  now rewrite balance_step_uninvolved.
Qed.

Lemma balance_of_uninvolved_person_witness : get_balance "Mike" Sample.ledger = 0.
Proof.
  apply balance_of_uninvolved_person.
  repeat (apply Forall_cons; split; [split; simpl; discriminate |]).
  apply Forall_nil_2.
Defined.

Section Brackets.

Variable person : string.

Lemma fold_min_lower (l : list Z) (a : Z) :
  Forall (fun x => fold_left Z.min l a <= x) l.
Proof.
  revert a. induction l as [|x l IH]; intros a; simpl; constructor.
  - pose proof (fold_min_le l (Z.min a x)). lia.
  - apply IH.
Qed.

Lemma fold_min_attained (l : list Z) (a : Z) : fold_left Z.min l a ∈ a :: l.
Proof.
  revert a. induction l as [|x l IH]; intros a; simpl; [left|].
  specialize (IH (Z.min a x)). apply elem_of_cons in IH as [IH | IH].
  - rewrite IH. destruct (Z.min_spec a x) as [[_ ->] | [_ ->]]; [left | right; left].
  - right; right. exact IH.
Qed.

Lemma fold_max_attained (l : list Z) (a : Z) : fold_left Z.max l a ∈ a :: l.
Proof.
  revert a. induction l as [|x l IH]; intros a; simpl; [left|].
  specialize (IH (Z.max a x)). apply elem_of_cons in IH as [IH | IH].
  - rewrite IH. destruct (Z.max_spec a x) as [[_ ->] | [_ ->]]; [right; left | left].
  - right; right. exact IH.
Qed.

Lemma running_balances_last (bal : Z) (txs : list Transaction) :
  fold_left (balance_step person) txs bal ∈ bal :: running_balances person bal txs.
Proof.
  revert bal. induction txs as [|tx txs IH]; intros bal; simpl; [left|].
  right. apply IH.
Qed.

Lemma running_balances_last_nonempty (bal : Z) (txs : list Transaction) :
  txs <> [] ->
  fold_left (balance_step person) txs bal ∈ running_balances person bal txs.
Proof.
  destruct txs as [|tx txs]; [congruence|]. intros _. simpl.
  apply running_balances_last.
Qed.

End Brackets.

(** X4: the pair returned by [get_min_max_balance] brackets the history.  The
    minimum is 0 or one of the balances after a transaction and is below
    all of them; once the chain holds a transaction the maximum is an
    integer, one of these balances and above all of them, so that the
    current balance lies between the two. *)
Theorem min_max_bracket_the_balances (person : string) (self : Blockchain) mn mx
  (Hres : get_min_max_balance person self = (mn, mx)) :
  mn ∈ 0 :: running_balances person 0 (all_transactions self) /\
  Forall (fun b => mn <= b) (running_balances person 0 (all_transactions self)) /\
  mn <= get_balance person self /\
  (all_transactions self <> [] ->
     exists m, mx = Int m /\
       m ∈ running_balances person 0 (all_transactions self) /\
       Forall (fun b => b <= m) (running_balances person 0 (all_transactions self)) /\
       get_balance person self <= m).
Proof.
  rewrite get_min_max_balance_unfold in Hres. injection Hres as <- <-.
  rewrite get_balance_unfold.
  pose proof (running_balances_last person 0 (all_transactions self)) as Hlast.
  set (txs := all_transactions self) in *.
  set (rb := running_balances person 0 txs) in *.
  split; [apply fold_min_attained |]. split; [apply fold_min_lower |]. split.
  - apply elem_of_cons in Hlast as [-> | Hlast]; [apply fold_min_le |].
    exact (proj1 (Forall_forall _ _) (fold_min_lower rb 0) _ Hlast).
  - intros Hne.
    assert (Hrb : rb <> []) by (subst rb; destruct txs; [congruence | discriminate]).
    destruct rb as [|x l] eqn:Erb; [congruence|]. simpl.
    exists (fold_left Z.max l x). rewrite fold_py_max_Int.
    destruct (fold_max_ge l x) as [Hx Hl].
    split; [reflexivity|]. split; [apply fold_max_attained |].
    assert (Hall : Forall (fun b => b <= fold_left Z.max l x) (x :: l))
      by (constructor; assumption).
    split; [exact Hall |].
    pose proof (running_balances_last_nonempty person 0 txs Hne) as Hin.
    fold rb in Hin. rewrite Erb in Hin.
    exact (proj1 (Forall_forall _ _) Hall _ Hin).
Qed.

Lemma min_max_bracket_the_balances_witness :
  0 ∈ 0 :: running_balances "Bob" 0 (all_transactions Sample.ledger) /\
  Forall (fun b => 0 <= b) (running_balances "Bob" 0 (all_transactions Sample.ledger)) /\
  0 <= get_balance "Bob" Sample.ledger /\
  (all_transactions Sample.ledger <> [] ->
     exists m, Int 50 = Int m /\
       m ∈ running_balances "Bob" 0 (all_transactions Sample.ledger) /\
       Forall (fun b => b <= m) (running_balances "Bob" 0 (all_transactions Sample.ledger)) /\
       get_balance "Bob" Sample.ledger <= m).
Proof.
  apply (min_max_bracket_the_balances "Bob" Sample.ledger 0 (Int 50)). reflexivity.
Defined.

(** ** Users with a positive balance *)

Section PositiveUsers.

Lemma dict_get_set (d : list (string * Z)) (k u : string) (v default : Z) :
  dict_get (dict_set d k v) u default =
  if (k =? u)%string then v else dict_get d u default.
Proof.
  induction d as [|[k' v'] d IH]; simpl.
  - reflexivity.
  - destruct (String.eqb_spec k' k) as [-> | Hk]; simpl.
    + destruct (k =? u)%string; reflexivity.
    + destruct (String.eqb_spec k' u) as [-> | Hu]; [| exact IH].
      destruct (String.eqb_spec k u); [congruence | reflexivity].
Qed.

Lemma dict_set_keys (d : list (string * Z)) (k : string) (v : Z) :
  (k ∈ map fst d /\ map fst (dict_set d k v) = map fst d) \/
  ((k ∉ map fst d) /\ map fst (dict_set d k v) = (map fst d ++ [k])%list).
Proof.
  induction d as [|[k' v'] d IH]; simpl.
  - right. split; [apply not_elem_of_nil | reflexivity].
  - destruct (String.eqb_spec k' k) as [-> | Hk]; simpl.
    + left. split; [left | reflexivity].
    + destruct IH as [[Hin ->] | [Hnin ->]].
      * left. split; [right; exact Hin | reflexivity].
      * right. split; [| reflexivity].
        apply not_elem_of_cons. split; [congruence | exact Hnin].
Qed.

Lemma dict_set_NoDup (d : list (string * Z)) (k : string) (v : Z) :
  NoDup (map fst d) -> NoDup (map fst (dict_set d k v)).
Proof.
  intros Hnd. destruct (dict_set_keys d k v) as [[_ ->] | [Hnin ->]]; [exact Hnd|].
  apply NoDup_app. split; [exact Hnd|]. split.
  - intros x Hx Hxk. apply list_elem_of_singleton in Hxk. congruence.
  - apply NoDup_singleton.
Qed.

Lemma dict_get_absent (d : list (string * Z)) (u : string) (default : Z) :
  u ∉ map fst d -> dict_get d u default = default.
Proof.
  induction d as [|[k v] d IH]; simpl; intros Hu; [reflexivity|].
  apply not_elem_of_cons in Hu as [Hne Hu].
  destruct (String.eqb_spec k u); [congruence | now apply IH].
Qed.

Lemma dict_get_present (d : list (string * Z)) (u : string) (v default : Z) :
  NoDup (map fst d) -> (u, v) ∈ d -> dict_get d u default = v.
Proof.
  induction d as [|[k w] d IH]; simpl; intros Hnd Hin; [inversion Hin|].
  apply NoDup_cons in Hnd as [Hk Hnd].
  apply elem_of_cons in Hin as [Heq | Hin].
  - injection Heq as -> ->. now rewrite String.eqb_refl.
  - destruct (String.eqb_spec k u) as [-> | _]; [| now apply IH].
    exfalso. apply Hk. apply list_elem_of_fmap. exists (u, v). split; [reflexivity | exact Hin].
Qed.

Lemma positive_step_get (d : list (string * Z)) (tx : Transaction) (u : string) :
  dict_get (positive_step d tx) u 0 = balance_step u (dict_get d u 0) tx.
Proof.
  unfold positive_step, balance_step. rewrite !dict_get_set.
  destruct (String.eqb_spec (sender tx) u) as [Hs | Hs];
    destruct (String.eqb_spec (receiver tx) u) as [Hr | Hr];
    destruct (String.eqb_spec (sender tx) (receiver tx)) as [Hsr | Hsr];
    try congruence; try reflexivity.
Qed.

Lemma positive_fold_get (txs : list Transaction) (d : list (string * Z)) (u : string) :
  dict_get (fold_left positive_step txs d) u 0 =
  fold_left (balance_step u) txs (dict_get d u 0).
Proof.
  revert d. induction txs as [|tx txs IH]; intros d; simpl; [reflexivity|].
  now rewrite IH, positive_step_get.
Qed.

Lemma positive_fold_NoDup (txs : list Transaction) (d : list (string * Z)) :
  NoDup (map fst d) -> NoDup (map fst (fold_left positive_step txs d)).
Proof.
  revert d. induction txs as [|tx txs IH]; intros d Hnd; simpl; [exact Hnd|].
  apply IH. unfold positive_step. now do 2 apply dict_set_NoDup.
Qed.

Lemma filter_keys_NoDup (f : string * Z -> bool) (d : list (string * Z)) :
  NoDup (map fst d) -> NoDup (map fst (List.filter f d)).
Proof.
  induction d as [|[k v] d IH]; simpl; intros Hnd; [constructor|].
  apply NoDup_cons in Hnd as [Hk Hnd].
  destruct (f (k, v)); simpl; [| now apply IH].
  apply NoDup_cons. split; [| now apply IH].
  intros Hin. apply Hk. apply list_elem_of_fmap in Hin as ([k' v'] & -> & Hin).
  apply list_elem_of_In, filter_In in Hin as [Hin _].
  apply list_elem_of_fmap. exists (k', v'). split; [reflexivity | now apply list_elem_of_In].
Qed.

End PositiveUsers.

(** X5: [get_positive_balance_users] lists exactly the persons whose balance,
    as [get_balance] computes it, is positive, each of them once. *)
Theorem positive_users_have_positive_balance (self : Blockchain) :
  (forall user, user ∈ get_positive_balance_users self <-> 0 < get_balance user self) /\
  NoDup (get_positive_balance_users self).
Proof.
  unfold get_positive_balance_users. rewrite fold_blocks_concat.
  fold (all_transactions self).
  set (d := fold_left positive_step (all_transactions self) []).
  assert (Hnd : NoDup (map fst d)) by (apply positive_fold_NoDup; constructor).
  assert (Hget : forall u, dict_get d u 0 = get_balance u self).
  { intros u. unfold d. rewrite positive_fold_get, get_balance_unfold. reflexivity. }
  split; [| now apply filter_keys_NoDup].
  intros user. rewrite <- Hget. split.
  - intros Hin. apply list_elem_of_fmap in Hin as ([k v] & -> & Hin).
    apply list_elem_of_In, filter_In in Hin as [Hin Hpos]. simpl in *.
    rewrite (dict_get_present d k v 0 Hnd) by now apply list_elem_of_In.
    now apply Z.ltb_lt.
  - intros Hpos.
    destruct (decide (user ∈ map fst d)) as [Hin | Hnin];
      [| rewrite dict_get_absent in Hpos by assumption; lia].
    apply list_elem_of_fmap in Hin as ([k v] & -> & Hin). simpl in *.
    rewrite (dict_get_present d k v 0 Hnd Hin) in Hpos.
    apply list_elem_of_fmap. exists (k, v). split; [reflexivity|].
    apply list_elem_of_In, filter_In. split; [now apply list_elem_of_In |].
    now apply Z.ltb_lt.
Qed.

(** The users of the sample ledger, in the order in which they first appear. *)
Example positive_users_sample :
  get_positive_balance_users Sample.ledger = ["Bob"; "Kate"; "Jane"].
Proof. reflexivity. Qed.

Section PositiveOrder.

Lemma dict_set_note (d : list (string * Z)) (k : string) (v : Z) :
  map fst (dict_set d k v) = note_name (map fst d) k.
Proof.
  unfold note_name. destruct (dict_set_keys d k v) as [[Hin ->] | [Hnin ->]].
  - now rewrite bool_decide_eq_true_2.
  - now rewrite bool_decide_eq_false_2.
Qed.

Lemma positive_fold_keys (txs : list Transaction) (d : list (string * Z)) :
  map fst (fold_left positive_step txs d) =
  fold_left note_name (flat_map (fun tx => [sender tx; receiver tx]) txs) (map fst d).
Proof.
  revert d. induction txs as [|tx txs IH]; intros d; simpl; [reflexivity|].
  rewrite IH. unfold positive_step. now rewrite !dict_set_note.
Qed.

Lemma filter_items_keys (d : list (string * Z)) :
  NoDup (map fst d) ->
  map fst (List.filter (fun item => 0 <? snd item) d) =
  List.filter (fun u => 0 <? dict_get d u 0) (map fst d).
Proof.
  induction d as [|[k v] d IH]; intros Hnd; [reflexivity|].
  apply NoDup_cons in Hnd as [Hk Hnd]. simpl. rewrite String.eqb_refl.
  assert (Htail : List.filter (fun u => 0 <? (if (k =? u)%string then v else dict_get d u 0))
                    (map fst d) =
                  List.filter (fun u => 0 <? dict_get d u 0) (map fst d)).
  { apply filter_ext_in. intros u Hu.
    destruct (String.eqb_spec k u) as [-> | _]; [| reflexivity].
    exfalso. apply Hk. now apply list_elem_of_In. }
  rewrite Htail. destruct (0 <? v); simpl; now rewrite IH.
Qed.

End PositiveOrder.

(** X6: the users are listed in the order in which they first appear in the
    chain as sender or receiver: the list is that of the participants, with
    those whose balance is not positive left out. *)
Theorem positive_users_in_order_of_appearance (self : Blockchain) :
  get_positive_balance_users self =
  List.filter (fun u => 0 <? get_balance u self) (participants self).
Proof.
  unfold get_positive_balance_users, participants. rewrite fold_blocks_concat.
  fold (all_transactions self).
  set (d := fold_left positive_step (all_transactions self) []).
  assert (Hnd : NoDup (map fst d)) by (apply positive_fold_NoDup; constructor).
  rewrite (filter_items_keys d Hnd).
  unfold d at 2. rewrite positive_fold_keys. simpl.
  apply filter_ext. intros u. unfold d.
  now rewrite positive_fold_get, get_balance_unfold.
Qed.

(** ** Ledgers built by the operations *)

Section Built.

Lemma verify_all_transactions_Forall (blocks : list Block) :
  verify_all_transactions_loop blocks = true <->
  Forall (fun b => verify_transactions b = true) blocks.
Proof.
  induction blocks as [|b blocks IH]; simpl.
  - split; [constructor | reflexivity].
  - destruct (verify_transactions b) eqn:Hb; simpl.
    + rewrite IH. split; [intros H; now constructor | intros H; now inversion H].
    + split; [discriminate | intros H; inversion H; congruence].
Qed.

Lemma proof_of_work_never_raises (fuel : nat) (b : Block) (e : exn) :
  proof_of_work fuel b <> Raise e.
Proof.
  revert b. induction fuel as [|fuel IH]; intros b; simpl;
    destruct (difficulty_ok (hash b)); simpl; try discriminate.
  apply IH.
Qed.

(** The shape of a built chain: the genesis block, then sealed blocks. *)
Lemma built_shape (ops : list op) (self self' : Blockchain) g rest :
  run_ops ops self = Ret self' ->
  chain self = g :: rest -> Forall sealed rest ->
  exists rest', chain self' = g :: rest' /\ Forall sealed rest'.
Proof.
  revert self rest. induction ops as [|o ops IH]; intros self rest; simpl.
  - intros [= <-] Hc Hs. eauto.
  - destruct o as [s r a | now fuel]; simpl.
    + intros Hrun Hc Hs. eapply IH; [exact Hrun | exact Hc | exact Hs].
    + destruct (add_block now fuel self) as [self1| |] eqn:Hadd; simpl; try discriminate.
      intros Hrun Hc Hs.
      destruct (add_block_ret _ _ _ _ Hadd)
        as (prev & b & _ & Hchain & _ & _ & _ & _ & Hcons & Hok & Hm & Hn).
      eapply (IH self1 (rest ++ [b])%list); [exact Hrun | now rewrite Hchain, Hc |].
      apply Forall_app. split; [exact Hs |]. repeat constructor; assumption.
Qed.

End Built.

(** X7: in every freshly built ledger the first block is the genesis block
    (no transactions, previous hash 0, nonce 0) and every later block came
    out of the sealer: its hash starts with four zeros and is a fresh
    recomputation, its nonce is not negative and its Merkle root matches its
    transactions. *)
Theorem fresh_ledger_is_genesis_then_sealed (self : Blockchain) (Hfresh : fresh self) :
  exists g rest,
    chain self = g :: rest /\
    transactions g = [] /\ previous_hash g = "0" /\ nonce g = 0 /\
    hash g = generate_hash g /\
    Forall sealed rest.
Proof.
  destruct Hfresh as (now & ops & Hrun).
  destruct (built_shape ops (Blockchain_init now) self (Block_init now [] "0") []
              Hrun eq_refl (Forall_nil_2 _)) as (rest & Hc & Hs).
  exists (Block_init now [] "0"), rest. repeat split; assumption.
Qed.

Lemma fresh_ledger_is_genesis_then_sealed_witness :
  exists g rest,
    chain Sample.ledger = g :: rest /\
    transactions g = [] /\ previous_hash g = "0" /\ nonce g = 0 /\
    hash g = generate_hash g /\
    Forall sealed rest.
Proof.
  exact (fresh_ledger_is_genesis_then_sealed Sample.ledger SampleFacts.ledger_fresh).
Defined.

(** X8: on every freshly built ledger [verify_all_transactions] answers
    true, the genesis block included. *)
Theorem fresh_ledger_verifies_all_transactions (self : Blockchain) (Hfresh : fresh self) :
  verify_all_transactions self = true.
Proof.
  apply verify_all_transactions_Forall. apply (inv_merkle _ (fresh_inv _ Hfresh)).
Qed.

Lemma fresh_ledger_verifies_all_transactions_witness :
  verify_all_transactions Sample.ledger = true.
Proof.
  exact (fresh_ledger_verifies_all_transactions Sample.ledger SampleFacts.ledger_fresh).
Defined.

(** X9: [add_block] keeps a verified ledger verified, however the ledger was
    obtained (built, or loaded from stored records): if both verifications
    answer true before a returning [add_block], they answer true after. *)
Theorem add_block_preserves_verification (now : datetime) (fuel : nat)
  (self self' : Blockchain)
  (Hadd : add_block now fuel self = Ret self')
  (Hchain : verify_chain self = Ret true)
  (Htxs : verify_all_transactions self = true) :
  verify_chain self' = Ret true /\ verify_all_transactions self' = true.
Proof.
  destruct (add_block_ret _ _ _ _ Hadd)
    as (prev & b & Hlast & Hc & _ & _ & Hprev & _ & Hcons & _ & Hm & _).
  split.
  - apply verify_chain_true. rewrite Hc. intros i cur p Hi Hcur Hp.
    pose proof (proj1 (verify_chain_true self) Hchain) as Hold.
    destruct (decide (i < length (chain self))%nat) as [Hlt | Hge].
    + rewrite lookup_app_l in Hcur by lia. rewrite lookup_app_l in Hp by lia.
      exact (Hold i cur p Hi Hcur Hp).
    + pose proof (lookup_lt_Some _ _ _ Hcur) as Hlen.
      rewrite length_app in Hlen. simpl in Hlen.
      assert (Hi' : i = length (chain self)) by lia.
      rewrite lookup_app_r in Hcur by lia. rewrite Hi', Nat.sub_diag in Hcur.
      injection Hcur as <-.
      rewrite lookup_app_l in Hp by lia.
      rewrite last_lookup in Hlast.
      replace (i - 1)%nat with (pred (length (chain self))) in Hp by lia.
      split; [exact Hcons | congruence].
  - unfold verify_all_transactions. rewrite Hc.
    apply verify_all_transactions_Forall, Forall_app. split.
    + now apply verify_all_transactions_Forall.
    + repeat constructor. exact Hm.
Qed.

Lemma add_block_preserves_verification_witness :
  verify_chain Sample.after1 = Ret true /\ verify_all_transactions Sample.after1 = true.
Proof.
  apply (add_block_preserves_verification Sample.t1 5%nat Sample.before1); vm_compute; reflexivity.
Defined.

Section AppendOnly.

Lemma run_ops_appends (ops : list op) (self self' : Blockchain) :
  run_ops ops self = Ret self' ->
  exists added,
    chain self' = (chain self ++ added)%list /\ length added = count_add_block ops.
Proof.
  revert self. induction ops as [|o ops IH]; intros self; simpl.
  - intros [= <-]. exists []. now rewrite app_nil_r.
  - destruct o as [s r a | now fuel]; simpl.
    + intros Hrun. exact (IH _ Hrun).
    + destruct (add_block now fuel self) as [self1| |] eqn:Hadd; simpl; try discriminate.
      intros Hrun. destruct (IH _ Hrun) as (added & Hc & Hlen).
      destruct (add_block_ret _ _ _ _ Hadd) as (prev & b & _ & Hchain & _).
      exists (b :: added). rewrite Hc, Hchain, <- app_assoc. simpl.
      split; [reflexivity |]. unfold count_add_block in *. simpl. now rewrite Hlen.
Qed.

End AppendOnly.

(** X11: the chain only grows at its end.  After any operations that
    returned, the blocks that were there are still there, unchanged and in
    place, followed by one new block for each [add_block]. *)
Theorem chain_is_append_only (ops : list op) (self self' : Blockchain)
  (Hrun : run_ops ops self = Ret self') :
  exists added,
    chain self' = (chain self ++ added)%list /\
    length added = count_add_block ops /\
    (forall (i : nat) b, chain self !! i = Some b -> chain self' !! i = Some b).
Proof.
  destruct (run_ops_appends _ _ _ Hrun) as (added & Hc & Hlen).
  exists added. split; [exact Hc |]. split; [exact Hlen |].
  intros i b Hb. rewrite Hc. now apply lookup_app_l_Some.
Qed.

Lemma chain_is_append_only_witness :
  exists added,
    chain Sample.ledger = (chain (Blockchain_init Sample.t0) ++ added)%list /\
    length added = count_add_block Sample.session /\
    (forall (i : nat) b, chain (Blockchain_init Sample.t0) !! i = Some b ->
                         chain Sample.ledger !! i = Some b).
Proof.
  exact (chain_is_append_only Sample.session (Blockchain_init Sample.t0) Sample.ledger
           SampleFacts.session_runs).
Defined.

(** ** The search of the sealer *)

Section Search.

(** One iteration of the loop. *)
Lemma candidate_shift (b : Block) (j : Z) :
  candidate (set_hash (generate_hash (set_nonce (nonce b + 1) b)) (set_nonce (nonce b + 1) b)) j
  = candidate b (1 + j).
Proof.
  unfold candidate, generate_hash, block_contents. simpl.
  now replace (nonce b + 1 + j) with (nonce b + (1 + j)) by lia.
Qed.

Lemma candidate_one (b : Block) :
  hash (set_hash (generate_hash (set_nonce (nonce b + 1) b)) (set_nonce (nonce b + 1) b))
  = candidate b 1.
Proof. reflexivity. Qed.

Lemma proof_of_work_first (fuel : nat) (b : Block) (h : string) (b' : Block) :
  proof_of_work fuel b = Ret (h, b') ->
  exists k : nat,
    (k <= fuel)%nat /\
    b' = (if Nat.eqb k 0 then b
          else set_hash (candidate b (Z.of_nat k)) (set_nonce (nonce b + Z.of_nat k) b)) /\
    (forall j : nat, (1 <= j < k)%nat -> difficulty_ok (candidate b (Z.of_nat j)) = false) /\
    ((0 < k)%nat -> difficulty_ok (hash b) = false).
Proof.
  revert b. induction fuel as [|fuel IH]; intros b; simpl;
    destruct (difficulty_ok (hash b)) eqn:Hd; simpl; try discriminate.
  - intros [= <- <-]. exists 0%nat. repeat split; try lia; reflexivity.
  - intros [= <- <-]. exists 0%nat. repeat split; try lia; reflexivity.
  - intros Hret. destruct (IH _ Hret) as (k & Hk & Hb' & Hfirst & Hpos).
    exists (S k). split; [lia|]. split; [| split; [| reflexivity]].
    + simpl Nat.eqb. cbv iota. destruct k as [|k].
      * simpl in Hb'. subst b'. reflexivity.
      * simpl Nat.eqb in Hb'. cbv iota in Hb'. rewrite candidate_shift in Hb'.
        subst b'. unfold set_hash, set_nonce. simpl.
        replace (1 + Z.of_nat (S k)) with (Z.of_nat (S (S k))) by lia.
        replace (nonce b + 1 + Z.of_nat (S k)) with (nonce b + Z.of_nat (S (S k))) by lia.
        reflexivity.
    + intros j Hj. destruct (decide (j = 1%nat)) as [-> | Hj1].
      * destruct k as [|k]; [lia|]. specialize (Hpos ltac:(lia)).
        rewrite candidate_one in Hpos. exact Hpos.
      * specialize (Hfirst (j - 1)%nat ltac:(lia)). rewrite candidate_shift in Hfirst.
        now replace (1 + Z.of_nat (j - 1)) with (Z.of_nat j) in Hfirst by lia.
Qed.

Lemma proof_of_work_finds (k : nat) :
  forall (b : Block) (fuel : nat),
    (1 <= k <= fuel)%nat ->
    difficulty_ok (candidate b (Z.of_nat k)) = true ->
    exists h b', proof_of_work fuel b = Ret (h, b') /\ nonce b' <= nonce b + Z.of_nat k.
Proof.
  induction k as [|k IH]; intros b fuel Hk Hok; [lia|].
  destruct (difficulty_ok (hash b)) eqn:Hd.
  { exists (hash b), b. split; [now apply proof_of_work_already_sealed | lia]. }
  destruct fuel as [|fuel]; [lia|]. simpl. rewrite Hd. simpl.
  set (b1 := set_hash (generate_hash (set_nonce (nonce b + 1) b)) (set_nonce (nonce b + 1) b)).
  destruct k as [|k].
  - exists (hash b1), b1. split; [| simpl; lia].
    apply proof_of_work_already_sealed. unfold b1. rewrite candidate_one. exact Hok.
  - destruct (IH b1 fuel ltac:(lia)) as (h & b' & Hret & Hn).
    + unfold b1. rewrite candidate_shift.
      now replace (1 + Z.of_nat (S k)) with (Z.of_nat (S (S k))) by lia.
    + exists h, b'. split; [exact Hret |]. simpl in Hn. lia.
Qed.

End Search.

(** X12: the sealer stops at the first nonce that works.  When it returns
    after [k] increments, only the nonce and the hash of the block have
    changed, the hash computed after each smaller number of increments
    misses the difficulty, and [k] is at most the number of iterations
    allowed.  Conversely, if the hash after [k >= 1] increments meets the
    difficulty, the sealer returns within [k] iterations. *)
Theorem proof_of_work_stops_at_first_nonce :
  (forall fuel b h b', proof_of_work fuel b = Ret (h, b') ->
     exists k : nat,
       (k <= fuel)%nat /\
       b' = (if Nat.eqb k 0 then b
             else set_hash (candidate b (Z.of_nat k))
                           (set_nonce (nonce b + Z.of_nat k) b)) /\
       (forall j : nat, (1 <= j < k)%nat ->
          difficulty_ok (candidate b (Z.of_nat j)) = false) /\
       ((0 < k)%nat -> difficulty_ok (hash b) = false)) /\
  (forall (k : nat) b fuel, (1 <= k <= fuel)%nat ->
     difficulty_ok (candidate b (Z.of_nat k)) = true ->
     exists h b', proof_of_work fuel b = Ret (h, b') /\ nonce b' <= nonce b + Z.of_nat k).
Proof.
  split; [exact proof_of_work_first | exact proof_of_work_finds].
Qed.

Lemma proof_of_work_stops_at_first_nonce_witness :
  exists h b',
    proof_of_work 5 (Block_init Sample.t1 (transactions Sample.block1) (hash Sample.genesis))
      = Ret (h, b') /\
    nonce b' <=
      nonce (Block_init Sample.t1 (transactions Sample.block1) (hash Sample.genesis))
      + Z.of_nat 2.
Proof.
  apply (proj2 proof_of_work_stops_at_first_nonce 2%nat); [lia |].
  vm_compute. reflexivity.
Defined.

(** ** More on the Merkle commitment *)

Section Digests.

Lemma string_of_list_ascii_length (l : list ascii) :
  String.length (string_of_list_ascii l) = length l.
Proof. induction l as [|c l IH]; simpl; [reflexivity | now rewrite IH]. Qed.

Lemma hex_word_length (w : Z) : length (Sha256.hex_word w) = 8%nat.
Proof. reflexivity. Qed.

Lemma concat_hex_length (ws : list Z) :
  length (concat (map Sha256.hex_word ws)) = (8 * length ws)%nat.
Proof.
  induction ws as [|w ws IH]; [reflexivity|].
  change (concat (map Sha256.hex_word (w :: ws)))
    with (Sha256.hex_word w ++ concat (map Sha256.hex_word ws))%list.
  rewrite length_app, hex_word_length, IH. simpl. lia.
Qed.

(** A digest is 64 characters long. *)
Lemma sha256_hex_length (s : string) : String.length (sha256_hex s) = 64%nat.
Proof.
  unfold sha256_hex, Sha256.hexdigest.
  rewrite string_of_list_ascii_length, concat_hex_length. reflexivity.
Qed.

Lemma create_merkle_root_level (records : list string) :
  (2 <= length records)%nat ->
  create_merkle_root records = create_merkle_root (next_level records).
Proof.
  destruct records as [|a [|b rest]]; simpl; try lia. intros _.
  now simp create_merkle_root.
Qed.

Lemma next_level_app_pairs (n : nat) :
  forall l m : list string, length l = (2 * n)%nat ->
    next_level (l ++ m) = (next_level l ++ next_level m)%list.
Proof.
  induction n as [|n IH]; intros l m Hlen.
  - destruct l; [reflexivity | discriminate].
  - destruct l as [|a [|b l]]; simpl in Hlen; try lia.
    simpl. f_equal. apply IH. lia.
Qed.

Lemma verify_transactions_spec (b : Block) :
  verify_transactions b = true <->
  create_merkle_root (map str_tx (transactions b)) = merkle_root (merkle_tree b).
Proof. unfold verify_transactions, MerkleTree_init. simpl. apply String.eqb_eq. Qed.

End Digests.

Section EmptyRoot.

Lemma create_merkle_root_length (records : list string) :
  records <> [] -> String.length (create_merkle_root records) = 64%nat.
Proof.
  intros Hne. rewrite create_merkle_root_digest by assumption. apply sha256_hex_length.
Qed.

Lemma create_merkle_root_empty (records : list string) :
  create_merkle_root records = "" <-> records = [].
Proof.
  split.
  - intros Hroot. destruct records as [|r rest]; [reflexivity|].
    pose proof (create_merkle_root_length (r :: rest) ltac:(discriminate)) as Hlen.
    rewrite Hroot in Hlen. discriminate.
  - intros ->. now simp create_merkle_root.
Qed.

Lemma create_merkle_root_repeated_last (n : nat) (records : list string) (r : string) :
  length records = (2 * S n)%nat ->
  create_merkle_root (records ++ [r; r]) = create_merkle_root (records ++ [r]).
Proof.
  intros Hlen.
  rewrite (create_merkle_root_level (records ++ [r; r]))
    by (rewrite length_app; simpl; lia).
  rewrite (create_merkle_root_level (records ++ [r]))
    by (rewrite length_app; simpl; lia).
  now rewrite !(next_level_app_pairs (S n)) by assumption.
Qed.

End EmptyRoot.

(** X13: the empty string stands for the empty list only.  The commitment of
    a non-empty list is a digest of 64 characters, so [create_merkle_root]
    returns the empty string exactly on the empty list; the hash of a block
    is 64 characters long as well. *)
Theorem merkle_root_is_empty_only_for_no_records :
  (forall records, create_merkle_root records = "" <-> records = []) /\
  (forall records, records <> [] -> String.length (create_merkle_root records) = 64%nat) /\
  (forall b, String.length (generate_hash b) = 64%nat).
Proof.
  split; [exact create_merkle_root_empty |].
  split; [exact create_merkle_root_length |].
  intros b. apply sha256_hex_length.
Qed.

(** X14: repeating the last record of a list of odd length, three records
    or more, does not change the commitment. *)
Theorem merkle_root_ignores_repeated_last (n : nat) (records : list string) (r : string)
  (Hlen : length records = (2 * S n)%nat) :
  create_merkle_root (records ++ [r; r]) = create_merkle_root (records ++ [r]).
Proof. now apply (create_merkle_root_repeated_last n). Qed.

Lemma merkle_root_ignores_repeated_last_witness :
  create_merkle_root (["a"; "b"] ++ ["c"; "c"]) = create_merkle_root (["a"; "b"] ++ ["c"]).
Proof. apply (merkle_root_ignores_repeated_last 0). reflexivity. Defined.

(** X15: a block whose list of transactions has odd length, three or more,
    and the same block with its last transaction entered twice get the same
    answer from [verify_transactions]: the repetition is not noticed. *)
Theorem verify_transactions_ignores_repeated_last (n : nat) (b : Block)
  (txs : list Transaction) (tx : Transaction)
  (Hlen : length txs = (2 * S n)%nat)
  (Htxs : transactions b = (txs ++ [tx])%list) :
  verify_transactions (set_transactions (txs ++ [tx; tx]) b) = verify_transactions b.
Proof.
  unfold verify_transactions, MerkleTree_init. simpl. rewrite Htxs.
  rewrite !map_app. simpl map.
  now rewrite (create_merkle_root_repeated_last n) by (now rewrite length_map).
Qed.

(** A block that the constructor builds from three transactions verifies,
    and still verifies with its third transaction entered twice. *)
Lemma verify_transactions_ignores_repeated_last_witness :
  verify_transactions
    (Block_init Sample.t1 (transactions Sample.block1 ++ transactions Sample.block2) "0")
    = true /\
  verify_transactions
    (set_transactions
       (transactions Sample.block1 ++
        [ {| sender := "Alice"; receiver := "Jane"; amount := 250 |};
          {| sender := "Alice"; receiver := "Jane"; amount := 250 |} ])
       (Block_init Sample.t1 (transactions Sample.block1 ++ transactions Sample.block2) "0"))
    = true.
Proof.
  split; [apply verify_transactions_Block_init |].
  rewrite (verify_transactions_ignores_repeated_last 0
             (Block_init Sample.t1
                (transactions Sample.block1 ++ transactions Sample.block2) "0")
             (transactions Sample.block1)
             {| sender := "Alice"; receiver := "Jane"; amount := 250 |}
             eq_refl eq_refl).
  apply verify_transactions_Block_init.
Defined.

(** X16: [verify_all_transactions] notices an overwritten Merkle root in any
    block of a freshly built ledger, the genesis block included, and it
    notices when the transactions of a verified block are emptied, or when
    transactions are put into a verified block that had none. *)
Theorem verify_all_transactions_detects_tampering (self : Blockchain) (Hfresh : fresh self) :
  (forall (i : nat) b root, chain self !! i = Some b ->
     root <> merkle_root (merkle_tree b) ->
     verify_all_transactions (tamper_merkle_root i root self) = false) /\
  (forall (i : nat) b txs, chain self !! i = Some b ->
     (txs = [] <-> transactions b <> []) ->
     verify_all_transactions
       {| chain := alter (set_transactions txs) i (chain self);
          current_transactions := current_transactions self |} = false).
Proof.
  pose proof (inv_merkle _ (fresh_inv _ Hfresh)) as Hm.
  assert (Hfalse : forall blocks (i : nat) b',
            blocks !! i = Some b' -> verify_transactions b' = false ->
            verify_all_transactions_loop blocks = false).
  { intros blocks i b' Hb' Hv.
    destruct (verify_all_transactions_loop blocks) eqn:Hall; [| reflexivity].
    apply verify_all_transactions_Forall in Hall.
    pose proof (proj1 (Forall_lookup _ _) Hall i b' Hb'). simpl in *. congruence. }
  assert (Hnot : forall b', ~ verify_transactions b' = true -> verify_transactions b' = false)
    by (intros b' H; destruct (verify_transactions b'); congruence).
  pose proof create_merkle_root_empty as Hempty.
  split.
  - intros i b root Hb Hroot. unfold verify_all_transactions, tamper_merkle_root. simpl.
    apply (Hfalse _ i (set_merkle_tree {| merkle_root := root |} b)).
    + now rewrite list_lookup_alter_eq, Hb.
    + pose proof (proj1 (Forall_lookup _ _) Hm i b Hb) as Hv. simpl in Hv.
      apply verify_transactions_spec in Hv.
      apply Hnot. rewrite verify_transactions_spec. simpl. congruence.
  - intros i b txs Hb Hiff. unfold verify_all_transactions. simpl.
    apply (Hfalse _ i (set_transactions txs b)).
    + now rewrite list_lookup_alter_eq, Hb.
    + pose proof (proj1 (Forall_lookup _ _) Hm i b Hb) as Hv. simpl in Hv.
      apply verify_transactions_spec in Hv.
      apply Hnot. rewrite verify_transactions_spec. simpl. rewrite <- Hv.
      intros Heq.
      destruct txs as [|tx txs].
      * destruct (transactions b) as [|tb txsb]; [now apply (proj1 Hiff) |].
        simpl in Heq. simp create_merkle_root in Heq. symmetry in Heq.
        apply Hempty in Heq. discriminate.
      * destruct (transactions b) as [|tb txsb].
        -- simpl in Heq. simp create_merkle_root in Heq. apply Hempty in Heq. discriminate.
        -- destruct Hiff as [_ Hiff]. specialize (Hiff ltac:(discriminate)). discriminate.
Qed.

Lemma verify_all_transactions_detects_tampering_witness :
  verify_all_transactions (tamper_merkle_root 0 "f00d" Sample.ledger) = false /\
  verify_all_transactions
    {| chain := alter (set_transactions []) 1%nat (chain Sample.ledger);
       current_transactions := current_transactions Sample.ledger |} = false.
Proof.
  destruct (verify_all_transactions_detects_tampering Sample.ledger SampleFacts.ledger_fresh)
    as [Hroot Htxs].
  split.
  - apply (Hroot 0%nat Sample.genesis); [reflexivity | discriminate].
  - apply (Htxs 1%nat Sample.block1); [reflexivity |].
    split; [discriminate | reflexivity].
Defined.

(** ** More on stored records *)

Section Decoding.

Lemma outcome_bind_ret {A B : Type} (m : outcome A) (f : A -> outcome B) (b : B) :
  m ≫= f = Ret b -> exists a, m = Ret a /\ f a = Ret b.
Proof. destruct m as [a|e|]; simpl; try discriminate. eauto. Qed.

Lemma checked_valid (t t' : datetime) : checked t = Ret t' -> valid_datetime t' = true.
Proof.
  unfold checked. destruct (valid_datetime t) eqn:Hv; [| discriminate].
  now intros [= <-].
Qed.

(** [fromisoformat] returns only timestamps within the ranges of the class. *)
Lemma fromisoformat_valid (s : string) (t : datetime) :
  fromisoformat s = Ret t -> valid_datetime t = true.
Proof.
  unfold fromisoformat. intros H.
  apply outcome_bind_ret in H as ([y s1] & _ & H).
  apply outcome_bind_ret in H as (s2 & _ & H).
  apply outcome_bind_ret in H as ([m s3] & _ & H).
  apply outcome_bind_ret in H as (s4 & _ & H).
  apply outcome_bind_ret in H as ([d s5] & _ & H).
  destruct s5 as [|c s5]; [now apply checked_valid in H |].
  apply outcome_bind_ret in H as ([[[h mi] sec] us] & _ & H).
  now apply checked_valid in H.
Qed.

Lemma from_dict_now (now now' : datetime) (data : gmap string pyval) :
  from_dict now data = from_dict now' data.
Proof.
  unfold from_dict, getitem.
  destruct (data !! "transactions") as [v_txs|]; [| reflexivity].
  destruct (data !! "previous_hash") as [v_prev|]; [| reflexivity].
  cbn [mbind outcome_bind].
  destruct v_txs as [?|?|txs]; reflexivity.
Qed.

Lemma from_dicts_cases (now : datetime) (chain_data : list (gmap string pyval)) :
  match from_dicts now chain_data with
  | Ret blocks => Forall2 (fun data b => from_dict now data = Ret b) chain_data blocks
  | Raise e => exists data, data ∈ chain_data /\ from_dict now data = Raise e
  | OutOfFuel => False
  end.
Proof.
  induction chain_data as [|data rest IH]; [constructor|].
  change (from_dicts now (data :: rest)) with
    (block ← from_dict now data; blocks ← from_dicts now rest; Ret (block :: blocks)).
  pose proof (from_dict_cases now data) as Hd.
  destruct (from_dict now data) as [b|e|] eqn:Hb; cbn [mbind outcome_bind].
  - destruct (from_dicts now rest) as [blocks|e|]; cbn [mbind outcome_bind].
    + now constructor.
    + destruct IH as (d & Hin & Hd'). exists d. split; [now right | exact Hd'].
    + exact IH.
  - exists data. split; [left | exact Hb].
  - exact Hd.
Qed.

End Decoding.

(** X17: [from_dict] reads six keys and nothing else: an entry under any
    other key changes neither the block that is rebuilt nor the error that
    is raised. *)
Theorem from_dict_ignores_other_keys (now : datetime) (data : gmap string pyval)
  (key : string) (v : pyval) (Hkey : key ∉ required_fields) :
  from_dict now (<[key := v]> data) = from_dict now data.
Proof.
  assert (Hne : forall k, k ∈ required_fields -> (<[key := v]> data) !! k = data !! k).
  { intros k Hk. apply lookup_insert_ne. intros ->. contradiction. }
  unfold from_dict, getitem.
  rewrite !Hne by (apply required_fields_elem; tauto). reflexivity.
Qed.

Lemma from_dict_ignores_other_keys_witness :
  from_dict Sample.t3 (<["miner" := PStr "Kate"]> (to_dict Sample.block1))
  = from_dict Sample.t3 (to_dict Sample.block1).
Proof.
  apply from_dict_ignores_other_keys.
  rewrite required_fields_elem. intuition discriminate.
Defined.

(** X18: rebuilding a chain is all or nothing.  The list comprehension
    returns one block for each record, in order, and raises the error of the
    first record that cannot be rebuilt; so a single record without a
    required field makes the whole load raise, and no chain is assigned. *)
Theorem from_dicts_is_all_or_nothing (now : datetime)
  (chain_data : list (gmap string pyval)) :
  (forall blocks, from_dicts now chain_data = Ret blocks <->
     Forall2 (fun data b => from_dict now data = Ret b) chain_data blocks) /\
  (forall data key, data ∈ chain_data -> key ∈ required_fields -> data !! key = None ->
     exists e, from_dicts now chain_data = Raise e).
Proof.
  pose proof (from_dicts_cases now chain_data) as Hcases.
  split.
  - intros blocks. split.
    + intros Hret. now rewrite Hret in Hcases.
    + clear Hcases. intros Hall.
      induction Hall as [|data b rest blocks Hb _ IH]; [reflexivity|].
      change (from_dicts now (data :: rest)) with
        (block ← from_dict now data; bs ← from_dicts now rest; Ret (block :: bs)).
      now rewrite Hb, IH.
  - intros data key Hin Hkey Hnone.
    destruct (from_dicts now chain_data) as [blocks|e|]; [| eauto | contradiction].
    exfalso.
    apply list_elem_of_lookup in Hin as (i & Hi).
    destruct (Forall2_lookup_l _ _ _ _ _ Hcases Hi) as (b & _ & Hb).
    pose proof (from_dict_cases now data) as Hd. rewrite Hb in Hd.
    destruct Hd as ((ts & Hts & _) & Htx & Hprev & Hn & Hh & Hm).
    apply required_fields_elem in Hkey.
    repeat (destruct Hkey as [-> | Hkey]; [congruence |]). congruence.
Qed.

(** X19: a rebuilt block is stable.  The block that [from_dict] returns does
    not depend on when it is called (the timestamp taken by the constructor
    is overwritten, and so is the hash the constructor computed), and
    encoding it with [to_dict] and rebuilding it again gives the same block. *)
Theorem from_dict_result_is_stable (now now' : datetime) (data : gmap string pyval)
  (b : Block) (Hret : from_dict now data = Ret b) :
  from_dict now' data = Ret b /\ from_dict now' (to_dict b) = Ret b.
Proof.
  split; [now rewrite (from_dict_now now' now) |].
  apply from_dict_to_dict.
  pose proof (from_dict_cases now data) as Hcases. rewrite Hret in Hcases.
  destruct Hcases as ((ts & _ & Hts) & _).
  exact (fromisoformat_valid _ _ Hts).
Qed.

Lemma from_dict_result_is_stable_witness :
  from_dict Sample.t0 (<["timestamp" := PStr "2024-05-01T09:03:08.009747"]>
                         (to_dict Sample.block1)) = Ret Sample.block1 /\
  from_dict Sample.t0 (to_dict Sample.block1) = Ret Sample.block1.
Proof.
  apply (from_dict_result_is_stable Sample.t3). vm_compute. reflexivity.
Defined.

(** ** What verification does not ask for *)

Section Unsealed.

Lemma verify_chain_snoc (self : Blockchain) (prev b : Block) (pending : list Transaction) :
  verify_chain self = Ret true -> last (chain self) = Some prev ->
  hash b = generate_hash b -> previous_hash b = hash prev ->
  verify_chain {| chain := chain self ++ [b]; current_transactions := pending |} = Ret true.
Proof.
  intros Hchain Hlast Hcons Hprev.
  apply verify_chain_true. simpl. intros i cur p Hi Hcur Hp.
  pose proof (proj1 (verify_chain_true self) Hchain) as Hold.
  destruct (decide (i < length (chain self))%nat) as [Hlt | Hge].
  - rewrite lookup_app_l in Hcur by lia. rewrite lookup_app_l in Hp by lia.
    exact (Hold i cur p Hi Hcur Hp).
  - pose proof (lookup_lt_Some _ _ _ Hcur) as Hlen.
    rewrite length_app in Hlen. simpl in Hlen.
    assert (Hi' : i = length (chain self)) by lia.
    rewrite lookup_app_r in Hcur by lia. rewrite Hi', Nat.sub_diag in Hcur.
    injection Hcur as <-.
    rewrite lookup_app_l in Hp by lia.
    rewrite last_lookup in Hlast.
    replace (i - 1)%nat with (pred (length (chain self))) in Hp by lia.
    split; [exact Hcons | congruence].
Qed.

End Unsealed.

(** X20: neither verification asks for proof of work.  A block built by the
    constructor on the hash of the last block, and appended without being
    sealed, keeps a verified chain verified, whatever its hash starts with. *)
Theorem verification_does_not_check_difficulty (now : datetime) (self : Blockchain)
  (prev : Block) (txs pending : list Transaction)
  (Hlast : last (chain self) = Some prev)
  (Hchain : verify_chain self = Ret true)
  (Htxs : verify_all_transactions self = true) :
  verify_chain {| chain := chain self ++ [Block_init now txs (hash prev)];
                  current_transactions := pending |} = Ret true /\
  verify_all_transactions {| chain := chain self ++ [Block_init now txs (hash prev)];
                             current_transactions := pending |} = true.
Proof.
  split.
  - apply (verify_chain_snoc self prev); [assumption | assumption | reflexivity | reflexivity].
  - unfold verify_all_transactions. simpl.
    apply verify_all_transactions_Forall, Forall_app. split.
    + now apply verify_all_transactions_Forall.
    + repeat constructor. apply verify_transactions_Block_init.
Qed.

Lemma verification_does_not_check_difficulty_witness :
  difficulty_ok (hash (Block_init Sample.t0 [] (hash Sample.block2))) = false /\
  verify_chain
    {| chain := chain Sample.ledger ++ [Block_init Sample.t0 [] (hash Sample.block2)];
       current_transactions := [] |} = Ret true /\
  verify_all_transactions
    {| chain := chain Sample.ledger ++ [Block_init Sample.t0 [] (hash Sample.block2)];
       current_transactions := [] |} = true.
Proof.
  split; [vm_compute; reflexivity |].
  apply (verification_does_not_check_difficulty Sample.t0 Sample.ledger Sample.block2).
  - reflexivity.
  - vm_compute. reflexivity.
  - vm_compute. reflexivity.
Defined.
